(** * indexconverter: a CSV index turned into a Word document

    A shallow embedding of [indexconverter.py].  The script reads the rows of
    a comma-separated index (topic, book number, page number, comment), sorts
    them, and writes one paragraph per row into a .docx document, opening a
    new document section with a two-letter heading whenever the first letter
    of the topic moves on.

    The interpreter line of the script names python3, so the branches taken
    when [sys.version_info.major] is 3 are the ones embedded: text is a
    sequence of Unicode code points and the sort key uses [casefold]. *)

From Stdlib Require Import NArith ZArith.
From stdpp Require Import list strings gmap sorting.

(** ** Python text *)

(** A Python 3 [str] is a sequence of code points. *)
Abbreviation str := (list N).

(** A source literal; every literal of the script is ASCII. *)
Definition lit (s : string) : str :=
  Ascii.N_of_ascii <$> String.list_ascii_of_string s.

(** [<], [>] and [==] on [str] compare code point by code point, a proper
    prefix being smaller. *)
Definition str_compare : str → str → comparison := list_compare N.compare.

Definition str_lt (a b : str) : bool :=
  match str_compare a b with Lt => true | _ => false end.

Definition str_gt (a b : str) : bool :=
  match str_compare a b with Gt => true | _ => false end.

Definition str_eq (a b : str) : bool :=
  match str_compare a b with Eq => true | _ => false end.

(** The case mappings of the Unicode Character Database belong to the
    interpreter, not to the script.  For ASCII they are written out; for
    every other code point they are a parameter of the development.  Each
    maps one code point to a short string (the German sharp s upper-cases
    and case-folds to two letters). *)
Record UnicodeData := {
  ext_lower : N → str;
  ext_upper : N → str;
  ext_casefold : N → str
}.

Definition is_ascii (c : N) : bool := (c <? 128)%N.

Definition ascii_lower (c : N) : N :=
  if (65 <=? c)%N && (c <=? 90)%N then (c + 32)%N else c.

Definition ascii_upper (c : N) : N :=
  if (97 <=? c)%N && (c <=? 122)%N then (c - 32)%N else c.

Definition lower_char (U : UnicodeData) (c : N) : str :=
  if is_ascii c then [ascii_lower c] else ext_lower U c.

Definition upper_char (U : UnicodeData) (c : N) : str :=
  if is_ascii c then [ascii_upper c] else ext_upper U c.

Definition casefold_char (U : UnicodeData) (c : N) : str :=
  if is_ascii c then [ascii_lower c] else ext_casefold U c.

(** [s.casefold()] folds every code point on its own. *)
Definition casefold (U : UnicodeData) (s : str) : str :=
  c ← s; casefold_char U c.

(** [s.lower()] and [s.upper()].  The script calls them on the one-character
    string [row[0][0]] only, where the context rule for a final sigma cannot
    apply, so the result is the mapping of each code point. *)
Definition lower (U : UnicodeData) (s : str) : str :=
  c ← s; lower_char U c.

Definition upper (U : UnicodeData) (s : str) : str :=
  c ← s; upper_char U c.

(** ** Exceptions *)

(** [IndexError] is what indexing out of range raises; [ValueError] is what
    the document builder raises for text that XML cannot carry;
    [IsADirectoryError] is what saving raises when the path names a
    directory; [SystemExit] is what [parser.error] raises after writing its
    message to stderr. *)
Inductive exn :=
  | IndexError
  | ValueError
  | IsADirectoryError
  | SystemExit (status : Z) (message : str).

Inductive result (A : Type) :=
  | Ok (a : A)
  | Raise (e : exn).
Arguments Ok {A} a.
Arguments Raise {A} e.

#[global] Instance result_ret : MRet result := λ A a, Ok a.
#[global] Instance result_bind : MBind result := λ A B f m,
  match m with Ok a => f a | Raise e => Raise e end.

(** [l[i]] for a non-negative [i]. *)
Definition getitem {A} (l : list A) (i : nat) : result A :=
  match l !! i with Some x => Ok x | None => Raise IndexError end.

(** Indexing a [str] gives the one-character string. *)
Definition str_getitem (s : str) (i : nat) : result str :=
  c ← getitem s i; mret [c].

(** ** The Row Sorter (lines 132-137) *)

(** A row as [csv.reader] yields it: a list of fields of any length. *)
Abbreviation Row := (list (list N)).

Abbreviation Key := (list N * list N * list N * list N)%type.

(** [lambda row: (row[0].casefold(), row[1], row[2], row[3].casefold())] *)
Definition sort_key (U : UnicodeData) (row : Row) : result Key :=
  r0 ← getitem row 0;
  r1 ← getitem row 1;
  r2 ← getitem row 2;
  r3 ← getitem row 3;
  mret (casefold U r0, r1, r2, casefold U r3).

(** [<] on tuples: the first position where the two differ decides. *)
Definition tuple_lt (a b : Key) : bool :=
  let '(a0, a1, a2, a3) := a in
  let '(b0, b1, b2, b3) := b in
  if negb (str_eq a0 b0) then str_lt a0 b0
  else if negb (str_eq a1 b1) then str_lt a1 b1
  else if negb (str_eq a2 b2) then str_lt a2 b2
  else if negb (str_eq a3 b3) then str_lt a3 b3
  else false.

(** [sorted(iterable, key=...)] computes the key of every element, in order,
    and then sorts with [<] on the keys alone.  The list sort inserts each
    element, left to right, into the sorted prefix behind every element that
    is not greater than it; a stable sort has one result only, so the
    faster merging of long inputs is not written out. *)
Fixpoint insort {A} (lt : A → A → bool) (x : A) (l : list A) : list A :=
  match l with
  | [] => [x]
  | y :: l' => if lt x y then x :: l else y :: insort lt x l'
  end.

Definition list_sort {A} (lt : A → A → bool) (l : list A) : list A :=
  foldl (λ acc x, insort lt x acc) [] l.

Definition sorted {A K} (lt : K → K → bool) (key : A → result K)
    (l : list A) : result (list A) :=
  keys ← mapM key l;
  mret ((list_sort (λ p q, lt p.1 q.1) (zip keys l)).*2).

Definition sorted_rows (U : UnicodeData) (csvin : list Row) : result (list Row) :=
  sorted tuple_lt (sort_key U) csvin.

(** ** The document builder (python-docx)

    The library is outside the repository; the part of its object model
    that the script drives is kept as plain data.  Lengths are in English
    Metric Units, the integer that [Inches] and [Pt] return. *)

Inductive WD_ALIGN_PARAGRAPH := LEFT | CENTER | RIGHT | JUSTIFY.
Inductive WD_LINE_SPACING := SINGLE | ONE_POINT_FIVE | DOUBLE.
Inductive WD_SECTION := CONTINUOUS | NEW_COLUMN | NEW_PAGE | EVEN_PAGE | ODD_PAGE.

Definition Inches_0_75 : Z := 685800.
Definition Inches_0_1 : Z := 91440.
Definition Pt (n : Z) : Z := n * 12700.

(** An element made by [OxmlElement(tag)], with the attributes it was given
    by [set] and its [text]. *)
Record Oxml := {
  tag : string;
  attrib : list (string * string);
  text : str
}.

Definition OxmlElement (t : string) : Oxml :=
  {| tag := t; attrib := []; text := [] |}.

Definition set_attr (e : Oxml) (name value : string) : Oxml :=
  {| tag := tag e; attrib := attrib e ++ [(name, value)]; text := text e |}.

Definition set_text (e : Oxml) (s : str) : Oxml :=
  {| tag := tag e; attrib := attrib e; text := s |}.

(** [qn] resolves a prefixed name; the prefixed spelling is kept. *)
Definition qn (prefixed : string) : string := prefixed.

Record RGBColor := { red : N; green : N; blue : N }.

(** The text of an element must be XML compatible.  The tab, the line feed
    and the carriage return are turned into elements of their own by the
    builder; of the other characters the control characters (U+0000 to
    U+001F), the surrogates and U+FFFE, U+FFFF are refused. *)
Definition xml_char (c : N) : bool :=
  ((c =? 9)%N || (c =? 10)%N || (c =? 13)%N || (32 <=? c)%N)
  && negb ((55296 <=? c)%N && (c <=? 57343)%N)
  && negb ((c =? 65534)%N || (c =? 65535)%N).

Definition xml_compatible (s : str) : bool := forallb xml_char s.

(** A run: the text [add_run] was called with, its character formatting,
    and the elements appended to its [_r] by hand. *)
Record Run := {
  run_text : str;
  bold : option bool;
  italic : option bool;
  color_rgb : option RGBColor;
  r_children : list Oxml
}.

Record Paragraph := {
  alignment : option WD_ALIGN_PARAGRAPH;
  runs : list Run
}.

(** What the body of the document holds, in order. *)
Inductive Block :=
  | Heading (heading_text : str) (level : N)
  | Para (p : Paragraph)
  | SectionBreak (start_type : WD_SECTION).

Record PageSetup := {
  top_margin : option Z;
  bottom_margin : option Z;
  left_margin : option Z;
  right_margin : option Z;
  cols_num : option string
}.

Record Style := {
  font_name : option string;
  font_asciiTheme : option string;
  font_size : option Z;
  font_bold : option bool;
  left_indent : option Z;
  first_line_indent : option Z;
  space_before : option Z;
  space_after : option Z;
  line_spacing_rule : option WD_LINE_SPACING;
  style_alignment : option WD_ALIGN_PARAGRAPH
}.

Record Document := {
  page : PageSetup;
  footer : Paragraph;
  style_Title : Style;
  style_Normal : Style;
  body : list Block
}.

Definition new_run (s : str) : Run :=
  {| run_text := s; bold := None; italic := None; color_rgb := None;
     r_children := [] |}.

Definition new_paragraph : Paragraph := {| alignment := None; runs := [] |}.

Definition new_style : Style :=
  {| font_name := None; font_asciiTheme := None; font_size := None;
     font_bold := None; left_indent := None; first_line_indent := None;
     space_before := None; space_after := None; line_spacing_rule := None;
     style_alignment := None |}.

(** [Document()]: the default template, with nothing in the body and an
    empty footer paragraph. *)
Definition Document_new : Document :=
  {| page := {| top_margin := None; bottom_margin := None;
                left_margin := None; right_margin := None;
                cols_num := None |};
     footer := new_paragraph;
     style_Title := new_style;
     style_Normal := new_style;
     body := [] |}.

(** The text a reader sees in a run, and in a paragraph. *)
Definition is_t (e : Oxml) : bool := String.eqb (tag e) "w:t".

Definition run_shown (r : Run) : str :=
  run_text r ++ (e ← filter (λ e, is_t e = true) (r_children r); text e).

Definition paragraph_text (p : Paragraph) : str :=
  r ← runs p; run_shown r.

(** *** Paragraph operations *)

Definition set_alignment (a : WD_ALIGN_PARAGRAPH) (p : Paragraph) : Paragraph :=
  {| alignment := Some a; runs := runs p |}.

(** [paragraph.add_run(text)] appends a run and returns it; the run is
    named afterwards by its position in the paragraph. *)
Definition add_run (s : str) (p : Paragraph) : nat * Paragraph :=
  (length (runs p), {| alignment := alignment p; runs := runs p ++ [new_run s] |}).

Definition alter_run (f : Run → Run) (run : nat) (p : Paragraph) : Paragraph :=
  {| alignment := alignment p; runs := alter f run (runs p) |}.

(** [run._r.append(e)] *)
Definition r_append (e : Oxml) (r : Run) : Run :=
  {| run_text := run_text r; bold := bold r; italic := italic r;
     color_rgb := color_rgb r; r_children := r_children r ++ [e] |}.

Definition set_bold (b : bool) (r : Run) : Run :=
  {| run_text := run_text r; bold := Some b; italic := italic r;
     color_rgb := color_rgb r; r_children := r_children r |}.

Definition set_italic (b : bool) (r : Run) : Run :=
  {| run_text := run_text r; bold := bold r; italic := Some b;
     color_rgb := color_rgb r; r_children := r_children r |}.

Definition set_color (c : RGBColor) (r : Run) : Run :=
  {| run_text := run_text r; bold := bold r; italic := italic r;
     color_rgb := Some c; r_children := r_children r |}.

(** ** [add_page_numbers] (lines 70-124) *)

Definition add_page_numbers (paragraph : Paragraph) : Paragraph :=
  let paragraph := set_alignment CENTER paragraph in

  let '(run, paragraph) := add_run [] paragraph in
  let t := OxmlElement "w:t" in
  let t := set_attr t (qn "xml:space") "preserve" in
  let t := set_text t (lit "Page ") in
  let paragraph := alter_run (r_append t) run paragraph in

  let '(run, paragraph) := add_run [] paragraph in
  let fldChar := OxmlElement "w:fldChar" in
  let fldChar := set_attr fldChar (qn "w:fldCharType") "begin" in
  let paragraph := alter_run (r_append fldChar) run paragraph in

  let instrText := OxmlElement "w:instrText" in
  let instrText := set_attr instrText (qn "xml:space") "preserve" in
  let instrText := set_text instrText (lit "PAGE") in
  let paragraph := alter_run (r_append instrText) run paragraph in

  let fldChar := OxmlElement "w:fldChar" in
  let fldChar := set_attr fldChar (qn "w:fldCharType") "end" in
  let paragraph := alter_run (r_append fldChar) run paragraph in

  let '(run, paragraph) := add_run [] paragraph in
  let t := OxmlElement "w:t" in
  let t := set_attr t (qn "xml:space") "preserve" in
  let t := set_text t (lit " of ") in
  let paragraph := alter_run (r_append t) run paragraph in

  let '(run, paragraph) := add_run [] paragraph in
  let fldChar := OxmlElement "w:fldChar" in
  let fldChar := set_attr fldChar (qn "w:fldCharType") "begin" in
  let paragraph := alter_run (r_append fldChar) run paragraph in

  let instrText := OxmlElement "w:instrText" in
  let instrText := set_attr instrText (qn "xml:space") "preserve" in
  let instrText := set_text instrText (lit "NUMPAGES") in
  let paragraph := alter_run (r_append instrText) run paragraph in

  let fldChar := OxmlElement "w:fldChar" in
  let fldChar := set_attr fldChar (qn "w:fldCharType") "end" in
  alter_run (r_append fldChar) run paragraph.

(** ** The state of [main] while the document is built *)

(** The objects the loop of [main] mutates: the document, the current
    letter, and what has been printed so far. *)
Record State := {
  document : Document;
  currltr : str;
  stdout : list str
}.

(** A statement runs on the state and returns or raises; what it did to the
    state before raising stays done. *)
Definition M (A : Type) : Type := State → result A * State.

#[global] Instance M_ret : MRet M := λ A a st, (Ok a, st).
#[global] Instance M_bind : MBind M := λ A B f m st,
  match m st with
  | (Ok a, st') => f a st'
  | (Raise e, st') => (Raise e, st')
  end.

Definition lift {A} (r : result A) : M A := λ st, (r, st).

Definition print (line : str) : M () := λ st,
  (Ok (), {| document := document st; currltr := currltr st;
             stdout := stdout st ++ [line] |}).

Definition get_currltr : M str := λ st, (Ok (currltr st), st).

Definition set_currltr (s : str) : M () := λ st,
  (Ok (), {| document := document st; currltr := s; stdout := stdout st |}).

Definition with_body (f : list Block → list Block) (d : Document) : Document :=
  {| page := page d; footer := footer d; style_Title := style_Title d;
     style_Normal := style_Normal d; body := f (body d) |}.

Definition modify_document (f : Document → Document) : M () := λ st,
  (Ok (), {| document := f (document st); currltr := currltr st;
             stdout := stdout st |}).

(** [document.add_section(start_type)] *)
Definition add_section (start : WD_SECTION) : M () :=
  modify_document (with_body (λ b, b ++ [SectionBreak start])).

(** [document.add_heading(text, level)]: a level above 9 is refused; the
    heading is a paragraph to which the text is added as a run, and then
    styled.  When the text is refused, the paragraph is there already, with
    a run that has no text, and has no style yet. *)
Definition add_heading (s : str) (level : N) : M () := λ st,
  if negb (level <=? 9)%N then (Raise ValueError, st)
  else if xml_compatible s then
    (Ok (), {| document := with_body (λ b, b ++ [Heading s level]) (document st);
               currltr := currltr st; stdout := stdout st |})
  else
    (Raise ValueError,
     {| document :=
          with_body (λ b, b ++ [Para {| alignment := None; runs := [new_run []] |}])
            (document st);
        currltr := currltr st; stdout := stdout st |}).

(** [document.add_paragraph()] appends an empty paragraph and returns it;
    the paragraph is named afterwards by its position in the body. *)
Definition add_paragraph : M nat := λ st,
  (Ok (length (body (document st))),
   {| document := with_body (λ b, b ++ [Para new_paragraph]) (document st);
      currltr := currltr st; stdout := stdout st |}).

Definition on_para (f : Paragraph → Paragraph) (b : Block) : Block :=
  match b with Para p => Para (f p) | _ => b end.

(** [paragraph.add_run(text)] on a paragraph of the body; the run is named
    by its position.  The run is attached to the paragraph before its text
    is set: when the text is refused the run is there, without text (what
    of the text had been put into it by then is not kept; the document is
    dropped with the exception). *)
Definition doc_add_run (paragraph : nat) (s : str) : M nat := λ st,
  let run :=
    match body (document st) !! paragraph with
    | Some (Para p) => length (runs p)
    | _ => 0
    end in
  if xml_compatible s then
    (Ok run,
     {| document :=
          with_body (alter (on_para (λ p, (add_run s p).2)) paragraph) (document st);
        currltr := currltr st; stdout := stdout st |})
  else
    (Raise ValueError,
     {| document :=
          with_body (alter (on_para (λ p, (add_run [] p).2)) paragraph) (document st);
        currltr := currltr st; stdout := stdout st |}).

(** An assignment to an attribute of a run of the body. *)
Definition doc_alter_run (paragraph run : nat) (f : Run → Run) : M () :=
  modify_document (with_body (alter (on_para (alter_run f run)) paragraph)).

Fixpoint for_each {A} (body : A → M ()) (l : list A) : M () :=
  match l with
  | [] => mret ()
  | x :: l' => body x;; for_each body l'
  end.

(** ** [main] (lines 127-210) *)

(** Lines 148-184: page numbers, margins, two columns, the two styles. *)
Definition configure (document : Document) : Document :=
  {| page := {| top_margin := Some Inches_0_75;
                bottom_margin := Some Inches_0_75;
                left_margin := Some Inches_0_75;
                right_margin := Some Inches_0_75;
                cols_num := Some "2"%string |};
     footer := add_page_numbers (footer document);
     style_Title :=
       {| font_name := font_name (style_Title document);
          font_asciiTheme := Some "Times New Roman"%string;
          font_size := Some (Pt 32);
          font_bold := Some true;
          left_indent := Some 0%Z;
          first_line_indent := Some 0%Z;
          space_before := Some (Pt 0);
          space_after := Some (Pt 0);
          line_spacing_rule := Some SINGLE;
          style_alignment := Some CENTER |};
     style_Normal :=
       {| font_name := Some "Times New Roman"%string;
          font_asciiTheme := font_asciiTheme (style_Normal document);
          font_size := Some (Pt 10);
          font_bold := font_bold (style_Normal document);
          left_indent := Some Inches_0_1;
          first_line_indent := Some (- Inches_0_1)%Z;
          space_before := Some (Pt 0);
          space_after := Some (Pt 0);
          line_spacing_rule := Some SINGLE;
          style_alignment := style_alignment (style_Normal document) |};
     body := body document |}.

(** Lines 191-206: the body of the loop over the sorted rows. *)
Definition loop_body (U : UnicodeData) (row : Row) : M () :=
  c ← lift (getitem row 0 ≫= λ topic, str_getitem topic 0);
  cur ← get_currltr;
  (if str_gt (lower U c) cur then
     print (lit "Processing:  " ++ upper U c ++ lower U c);;
     set_currltr (lower U c);;
     add_section ODD_PAGE;;
     add_heading (upper U c ++ lower U c) 0
   else mret ());;
  paragraph ← add_paragraph;
  r0 ← lift (getitem row 0);
  run ← doc_add_run paragraph r0;
  doc_alter_run paragraph run (set_bold true);;
  doc_alter_run paragraph run (set_color {| red := 22; green := 103; blue := 255 |});;
  r1 ← lift (getitem row 1);
  r2 ← lift (getitem row 2);
  run ← doc_add_run paragraph (lit " [b" ++ r1 ++ lit "/p" ++ r2 ++ lit "] ");
  doc_alter_run paragraph run (set_italic true);;
  r3 ← lift (getitem row 3);
  _ ← doc_add_run paragraph r3;
  mret ().

(** Lines 187-206: the first heading and the loop. *)
Definition assemble (U : UnicodeData) (csvsorted : list Row) : M () :=
  set_currltr (lit "`");;
  add_heading (lit "#") 0;;
  print (lit "Processing:  #");;
  for_each (loop_body U) csvsorted.

(** [os.path.splitext]: the extension starts at the last dot of the last
    path component, leading dots of the component apart. *)
Fixpoint rfind_from (i : Z) (c : N) (p : str) (found : Z) : Z :=
  match p with
  | [] => found
  | x :: p' => rfind_from (i + 1) c p' (if (x =? c)%N then i else found)
  end.

Definition rfind (p : str) (c : N) : Z := rfind_from 0 c p (-1).

Definition splitext (p : str) : str * str :=
  let sepIndex := rfind p 47 in
  let dotIndex := rfind p 46 in
  if (sepIndex <? dotIndex)%Z
     && existsb (λ c, negb (c =? 46)%N)
          (take (Z.to_nat (dotIndex - (sepIndex + 1)))
             (drop (Z.to_nat (sepIndex + 1)) p))
  then (take (Z.to_nat dotIndex) p, drop (Z.to_nat dotIndex) p)
  else (p, []).

(** What a path names: a saved document, another file, or a directory. *)
Inductive File :=
  | Docx (d : Document)
  | Other (content : str)
  | Directory.

Abbreviation Files := (gmap (list N) File).

(** [os.path.isfile(path)]: a directory is not a file. *)
Definition isfile (fs : Files) (path : str) : bool :=
  match fs !! path with
  | Some (Docx _) | Some (Other _) => true
  | Some Directory | None => false
  end.

(** How a run of [main] ends: the exception that ended it, if any, the lines
    written to stdout, and the files it leaves. *)
Record Outcome := {
  status : result ();
  printed : list str;
  files : Files
}.

(** The exit status of the process: an uncaught exception gives 1, and
    [SystemExit] its own status. *)
Definition exit_status (o : Outcome) : Z :=
  match status o with
  | Ok _ => 0
  | Raise (SystemExit n _) => n
  | Raise _ => 1
  end.

(** [parser.error(message)] *)
Definition parser_error (message : str) : exn := SystemExit 2 message.

(** The state when the loop is reached: the configured, still empty
    document, nothing printed, and no current letter yet (it is assigned
    first thing in [assemble]). *)
Definition st0 : State :=
  {| document := configure Document_new; currltr := []; stdout := [] |}.

(** [main], given the name in [args.csvfile], the rows [csv.reader] yields
    from that file, and the files present.  [document.save] writes the
    document under the path, unless the path names a directory. *)
Definition main (U : UnicodeData) (csvfile : str) (csvin : list Row)
    (fs : Files) : Outcome :=
  match sorted_rows U csvin with
  | Raise e => {| status := Raise e; printed := []; files := fs |}
  | Ok csvsorted =>
    let docfile := (splitext csvfile).1 ++ lit ".docx" in
    if isfile fs docfile then
      {| status := Raise (parser_error (docfile ++ lit " already exists."));
         printed := []; files := fs |}
    else
      match assemble U csvsorted st0 with
      | (Raise e, st) =>
          {| status := Raise e; printed := stdout st; files := fs |}
      | (Ok _, st) =>
          match fs !! docfile with
          | Some Directory =>
              {| status := Raise IsADirectoryError; printed := stdout st;
                 files := fs |}
          | _ =>
              {| status := Ok ();
                 printed := stdout st ++ [lit "Document created:  " ++ docfile];
                 files := <[docfile := Docx (document st)]> fs |}
          end
      end
  end.

(** ** The entry point (lines 213-222) *)

(** [os.path.getsize(path) == 0]: a file of no text has no bytes; a saved
    document always has some. *)
Definition empty_file (f : File) : bool :=
  match f with Other [] => true | _ => false end.

(** The script, after [parse_args] has given [args.csvfile]: the two checks
    on the CSV file, then [main].  [csvin] is what [csv.reader] yields from
    the file, as for [main]. *)
Definition script (U : UnicodeData) (csvfile : str) (csvin : list Row)
    (fs : Files) : Outcome :=
  match fs !! csvfile with
  | None | Some Directory =>
      {| status := Raise (parser_error (lit "CSV file does not exist."));
         printed := []; files := fs |}
  | Some f =>
      if empty_file f then
        {| status := Raise (parser_error (lit "CSV file is empty."));
           printed := []; files := fs |}
      else main U csvfile csvin fs
  end.

(** A table that leaves every code point outside ASCII alone.  It serves to
    run the definitions on ASCII text, where the table is never looked up. *)
Definition ascii_only : UnicodeData :=
  {| ext_lower := λ c, [c]; ext_upper := λ c, [c]; ext_casefold := λ c, [c] |}.

(** * The vocabulary of the properties *)

(** The order of the sort key, component by component. *)
Definition lex (c d : comparison) : comparison :=
  match c with Eq => d | _ => c end.

Definition key_compare (a b : Key) : comparison :=
  lex (str_compare a.1.1.1 b.1.1.1)
    (lex (str_compare a.1.1.2 b.1.1.2)
       (lex (str_compare a.1.2 b.1.2) (str_compare a.2 b.2))).

(** [a] is not after [b] in the order of the keys. *)
Definition key_le (a b : Key) : Prop := key_compare a b ≠ Gt.

(** The order of the rows: by their keys. *)
Definition row_le (U : UnicodeData) (a b : Row) : Prop :=
  ∃ ka kb, sort_key U a = Ok ka ∧ sort_key U b = Ok kb ∧ key_le ka kb.

(** A list of rows, each paired with its key. *)
Definition keyed (U : UnicodeData) (ps : list (Key * Row)) : Prop :=
  Forall (λ p, sort_key U p.2 = Ok p.1) ps.

(** A row the loop body gets through: four fields or more, the topic not
    empty. *)
Definition good (row : Row) : Prop :=
  ∃ c t r1 r2 r3 rest, row = (c :: t) :: r1 :: r2 :: r3 :: rest.

(** [row[0][0]], the empty string standing in where there is none. *)
Definition lead (row : Row) : str :=
  match row with (c :: _) :: _ => [c] | _ => [] end.

(** The paragraph the loop body writes for a row. *)
Definition entry (row : Row) : Paragraph :=
  match row with
  | r0 :: r1 :: r2 :: r3 :: _ =>
      {| alignment := None;
         runs :=
           [ {| run_text := r0; bold := Some true; italic := None;
                color_rgb := Some {| red := 22; green := 103; blue := 255 |};
                r_children := [] |};
             {| run_text := lit " [b" ++ r1 ++ lit "/p" ++ r2 ++ lit "] ";
                bold := None; italic := Some true; color_rgb := None;
                r_children := [] |};
             new_run r3 ] |}
  | _ => new_paragraph
  end.

(** Whether the row opens a section when the current letter is [cur], and
    the heading it then writes. *)
Definition opens (U : UnicodeData) (cur : str) (row : Row) : bool :=
  str_gt (lower U (lead row)) cur.

Definition heading_for (U : UnicodeData) (row : Row) : str :=
  upper U (lead row) ++ lower U (lead row).

(** One turn of the loop on a good row, as a function on the state. *)
Definition step (U : UnicodeData) (st : State) (row : Row) : State :=
  if opens U (currltr st) row then
    {| document :=
         with_body (λ b, b ++ [SectionBreak ODD_PAGE;
                               Heading (heading_for U row) 0;
                               Para (entry row)]) (document st);
       currltr := lower U (lead row);
       stdout := stdout st ++ [lit "Processing:  " ++ heading_for U row] |}
  else
    {| document := with_body (λ b, b ++ [Para (entry row)]) (document st);
       currltr := currltr st;
       stdout := stdout st |}.

(** The texts of a row that the loop body hands to the builder, when the
    current letter is [cur], are all XML compatible: the heading, if the
    row opens a section, the topic, the location and the comment. *)
Definition writes_ok (U : UnicodeData) (cur : str) (row : Row) : bool :=
  match row with
  | r0 :: r1 :: r2 :: r3 :: _ =>
      (if opens U cur row then xml_compatible (heading_for U row) else true)
      && xml_compatible r0
      && xml_compatible (lit " [b" ++ r1 ++ lit "/p" ++ r2 ++ lit "] ")
      && xml_compatible r3
  | _ => false
  end.

(** The rows the loop gets through from the current letter [cur]: each is
    good, and its texts are accepted as the current letter stands when the
    row is reached. *)
Fixpoint loop_ok (U : UnicodeData) (cur : str) (rows : list Row) : Prop :=
  match rows with
  | [] => True
  | row :: rows' =>
      good row ∧ writes_ok U cur row = true ∧
      loop_ok U (if opens U cur row then lower U (lead row) else cur) rows'
  end.

(** The state in which [assemble] enters its loop. *)
Definition enter (st : State) : State :=
  {| document := with_body (λ b, b ++ [Heading (lit "#") 0]) (document st);
     currltr := lit "`";
     stdout := stdout st ++ [lit "Processing:  #"] |}.

(** The blocks the loop appends for a list of good rows, from the current
    letter it starts with. *)
Fixpoint blocks (U : UnicodeData) (cur : str) (rows : list Row) : list Block :=
  match rows with
  | [] => []
  | row :: rows' =>
      if opens U cur row then
        SectionBreak ODD_PAGE :: Heading (heading_for U row) 0
          :: Para (entry row) :: blocks U (lower U (lead row)) rows'
      else Para (entry row) :: blocks U cur rows'
  end.

(** The texts of the first four fields of a row, and the heading its first
    character would get, are all XML compatible. *)
Definition texts_ok (U : UnicodeData) (row : Row) : bool :=
  xml_compatible (heading_for U row) && forallb xml_compatible (take 4 row).

(** The rows of the example of section 8 of the specification. *)
Definition apple_10 : Row := [lit "apple"; lit "2"; lit "10"; lit "x"].
Definition Apple_9 : Row := [lit "Apple"; lit "2"; lit "9"; lit "y"].

(** Two rows of one key (the topics differ in case only) behind a row that
    sorts after them. *)
Definition stable_input : list Row :=
  [ [lit "b"; lit "1"; lit "1"; lit "x"];
    [lit "A"; lit "1"; lit "1"; lit "x"; lit "first"];
    [lit "a"; lit "1"; lit "1"; lit "X"; lit "second"] ].

(** A run of literal text, and a run holding a field that the viewer
    computes, as [add_page_numbers] builds them. *)
Definition literal_run (s : str) : Run :=
  {| run_text := []; bold := None; italic := None; color_rgb := None;
     r_children :=
       [ {| tag := "w:t"; attrib := [("xml:space", "preserve")]; text := s |} ] |}.

Definition field_run (instruction : str) : Run :=
  {| run_text := []; bold := None; italic := None; color_rgb := None;
     r_children :=
       [ {| tag := "w:fldChar"; attrib := [("w:fldCharType", "begin")];
            text := [] |};
         {| tag := "w:instrText"; attrib := [("xml:space", "preserve")];
            text := instruction |};
         {| tag := "w:fldChar"; attrib := [("w:fldCharType", "end")];
            text := [] |} ] |}.

Definition Zebra : Row := [lit "Zebra"; lit "1"; lit "5"; lit "desc1"].
Definition apple : Row := [lit "apple"; lit "3"; lit "2"; lit "desc2"].

(** The three runs of an entry: topic, location, comment. *)
Definition entry_runs (topic location comment : str) : list Run :=
  [ {| run_text := topic; bold := Some true; italic := None;
       color_rgb := Some {| red := 22; green := 103; blue := 255 |};
       r_children := [] |};
    {| run_text := location; bold := None; italic := Some true;
       color_rgb := None; r_children := [] |};
    {| run_text := comment; bold := None; italic := None;
       color_rgb := None; r_children := [] |} ].

(** Where the document goes: the name of the CSV file with its extension
    replaced (line 140). *)
Definition docfile_of (csvfile : str) : str :=
  (splitext csvfile).1 ++ lit ".docx".

(** A row of five fields. *)
Definition five_fields : Row :=
  [lit "apple"; lit "3"; lit "2"; lit "desc2"; lit "extra"].

(** [a] is not after [b] as Python compares text. *)
Definition str_le (a b : str) : Prop := str_compare a b ≠ Gt.

(** The section breaks and the heading texts of a body, in order. *)
Definition breaks (b : list Block) : list WD_SECTION :=
  omap (λ x, match x with SectionBreak s => Some s | _ => None end) b.

Definition headings (b : list Block) : list str :=
  omap (λ x, match x with Heading h _ => Some h | _ => None end) b.

Definition section_count (b : list Block) : nat := length (breaks b).

(** Two facts about the case mappings outside ASCII, true of the Unicode
    tables: neither the lower-case form nor the case-folded form of such a
    code point begins with a code point up to the backtick (U+0060).  (Where
    the form begins with an ASCII character at all, it is a small letter,
    as for the Kelvin sign or the long s.) *)
Definition lower_above_backtick (U : UnicodeData) : Prop :=
  ∀ c, (128 ≤ c)%N → ∃ d s, ext_lower U c = d :: s ∧ (96 < d)%N.

Definition casefold_above_backtick (U : UnicodeData) : Prop :=
  ∀ c, (128 ≤ c)%N → ∃ d s, ext_casefold U c = d :: s ∧ (96 < d)%N.

(** A fact about case folding outside ASCII, true of the Unicode tables: it
    never makes a character disappear. *)
Definition casefold_not_empty (U : UnicodeData) : Prop :=
  ∀ c, (128 ≤ c)%N → ext_casefold U c ≠ [].

(** A row with no topic among rows that have one. *)
Definition no_topic : Row := [[]; lit "1"; lit "9"; lit "lost"].

(** The case-folded first character of the topic. *)
Definition folded_lead (U : UnicodeData) (row : Row) : str :=
  casefold U (lead row).

(** The first character of the topic case-folds and lower-cases to one and
    the same single character.  Every ASCII character does. *)
Definition plain_lead (U : UnicodeData) (row : Row) : Prop :=
  ∃ x, folded_lead U row = [x] ∧ lower U (lead row) = [x].

(** Following the words of the specification, with the letters held apart
    from what stands before them: a new section, with the heading of the
    first character, begins whenever the folded first character differs
    from that of the previous row and is above the backtick. *)
Fixpoint sections_by_change (U : UnicodeData) (prev : option str)
    (rows : list Row) : list Block :=
  match rows with
  | [] => []
  | row :: rows' =>
      let l := folded_lead U row in
      (if decide (prev = Some l) then []
       else if str_gt l (lit "`")
            then [SectionBreak ODD_PAGE; Heading (heading_for U row) 0]
            else [])
      ++ Para (entry row) :: sections_by_change U (Some l) rows'
  end.

(** The rows whose folded first character differs from that of the row
    before them: the first row of each run of one character. *)
Fixpoint firsts (U : UnicodeData) (prev : option str) (rows : list Row)
    : list Row :=
  match rows with
  | [] => []
  | row :: rows' =>
      let l := folded_lead U row in
      if decide (prev = Some l) then firsts U (Some l) rows'
      else row :: firsts U (Some l) rows'
  end.

(** The elements of a list that differ from the one before them. *)
Fixpoint changes {A} `{EqDecision A} (prev : option A) (l : list A) : list A :=
  match l with
  | [] => []
  | x :: l' =>
      if decide (prev = Some x) then changes (Some x) l'
      else x :: changes (Some x) l'
  end.

(** Rows whose topics begin with a, a, b, b, b, c, in sorted order. *)
Definition aabbbc : list Row :=
  [ [lit "ant"; lit "1"; lit "1"; lit ""];
    [lit "Apple"; lit "1"; lit "2"; lit ""];
    [lit "bat"; lit "1"; lit "3"; lit ""];
    [lit "Bee"; lit "1"; lit "4"; lit ""];
    [lit "bug"; lit "1"; lit "5"; lit ""];
    [lit "cat"; lit "1"; lit "6"; lit ""] ].

(** Two rows whose topics begin with digits, in sorted order. *)
Definition digits : list Row :=
  [ [lit "1st"; lit "1"; lit "1"; lit ""];
    [lit "2nd"; lit "1"; lit "2"; lit ""] ].

(** An index of digits and letters, in sorted order. *)
Definition mixed : list Row := digits ++ take 3 aabbbc.

(** The paragraphs of a body, in order. *)
Definition paras (b : list Block) : list Paragraph :=
  omap (λ x, match x with Para p => Some p | _ => None end) b.

(** The line that reports a heading. *)
Definition progress (heading : str) : str := lit "Processing:  " ++ heading.


(** A letter of ASCII. *)
Definition ascii_letter (c : N) : Prop :=
  (65 ≤ c ≤ 90)%N ∨ (97 ≤ c ≤ 122)%N.

(** * Properties *)

(** ** The order on text and on keys *)

Lemma N_compare_trans (x y z : N) (c : comparison) :
  (x ?= y)%N = c → (y ?= z)%N = c → (x ?= z)%N = c.
Proof.
  destruct c; rewrite ?N.compare_eq_iff, ?N.compare_lt_iff, ?N.compare_gt_iff; lia.
Qed.

Lemma str_compare_eq (a b : str) : str_compare a b = Eq ↔ a = b.
Proof. apply list_compare_refl, N.compare_eq_iff. Qed.

Lemma str_compare_antisym (a b : str) :
  str_compare b a = CompOpp (str_compare a b).
Proof.
  apply list_compare_antisym; [apply N.compare_eq_iff|].
  intros x y. apply N.compare_antisym.
Qed.

Lemma str_compare_trans (a b c : str) (o : comparison) :
  str_compare a b = o → str_compare b c = o → str_compare a c = o.
Proof.
  apply list_compare_trans.
  - apply N.compare_eq_iff.
  - apply N_compare_trans.
  - intros x y. apply N.compare_antisym.
Qed.

Lemma str_compare_refl (a : str) : str_compare a a = Eq.
Proof. by apply str_compare_eq. Qed.

Lemma tuple_lt_compare (a b : Key) :
  tuple_lt a b = true ↔ key_compare a b = Lt.
Proof.
  destruct a as [[[a0 a1] a2] a3], b as [[[b0 b1] b2] b3].
  unfold tuple_lt, key_compare, str_eq, str_lt; simpl.
  destruct (str_compare a0 b0), (str_compare a1 b1), (str_compare a2 b2),
    (str_compare a3 b3); simpl; split; congruence.
Qed.

Lemma key_compare_eq (a b : Key) : key_compare a b = Eq ↔ a = b.
Proof.
  destruct a as [[[a0 a1] a2] a3], b as [[[b0 b1] b2] b3].
  unfold key_compare; simpl. split.
  - destruct (str_compare a0 b0) eqn:E0; simpl; try done.
    destruct (str_compare a1 b1) eqn:E1; simpl; try done.
    destruct (str_compare a2 b2) eqn:E2; simpl; try done.
    intros E3. apply str_compare_eq in E0, E1, E2, E3. by subst.
  - intros [= -> -> -> ->]. by rewrite !str_compare_refl.
Qed.

Lemma key_compare_antisym (a b : Key) :
  key_compare b a = CompOpp (key_compare a b).
Proof.
  unfold key_compare.
  rewrite (str_compare_antisym a.1.1.1), (str_compare_antisym a.1.1.2),
    (str_compare_antisym a.1.2), (str_compare_antisym a.2).
  destruct (str_compare a.1.1.1 b.1.1.1), (str_compare a.1.1.2 b.1.1.2),
    (str_compare a.1.2 b.1.2), (str_compare a.2 b.2); done.
Qed.

Lemma lex_str_trans (x y z : str) (c1 c2 c3 : comparison) :
  (c1 = Lt → c2 = Lt → c3 = Lt) →
  lex (str_compare x y) c1 = Lt → lex (str_compare y z) c2 = Lt →
  lex (str_compare x z) c3 = Lt.
Proof.
  intros Hc.
  destruct (str_compare x y) eqn:E1; simpl; try done; intros H1;
    destruct (str_compare y z) eqn:E2; simpl; try done; intros H2.
  - rewrite (str_compare_trans _ _ _ _ E1 E2). simpl. auto.
  - apply str_compare_eq in E1 as ->. by rewrite E2.
  - apply str_compare_eq in E2 as <-. by rewrite E1.
  - by rewrite (str_compare_trans _ _ _ _ E1 E2).
Qed.

Lemma key_compare_lt_trans (a b c : Key) :
  key_compare a b = Lt → key_compare b c = Lt → key_compare a c = Lt.
Proof.
  unfold key_compare.
  do 3 apply lex_str_trans. apply str_compare_trans.
Qed.

#[global] Instance key_le_dec a b : Decision (key_le a b).
Proof. unfold key_le. apply _. Defined.

Lemma key_le_tuple_lt (a b : Key) : key_le a b ↔ tuple_lt b a = false.
Proof.
  unfold key_le. rewrite <- not_true_iff_false, tuple_lt_compare,
    (key_compare_antisym a b).
  destruct (key_compare a b); simpl; split; congruence.
Qed.

Lemma key_lt_le (a b : Key) : key_compare a b = Lt → key_le a b.
Proof. unfold key_le. congruence. Qed.

#[global] Instance key_le_refl : Reflexive key_le.
Proof.
  intros a. unfold key_le. by rewrite (proj2 (key_compare_eq a a) eq_refl).
Qed.

#[global] Instance key_le_trans : Transitive key_le.
Proof.
  intros a b c. unfold key_le.
  destruct (key_compare a b) eqn:E1; [|..|done].
  { apply key_compare_eq in E1 as ->. done. }
  destruct (key_compare b c) eqn:E2; [|..|done].
  { apply key_compare_eq in E2 as <-. by rewrite E1. }
  by rewrite (key_compare_lt_trans _ _ _ E1 E2).
Qed.

Lemma key_le_total (a b : Key) : key_le a b ∨ key_le b a.
Proof.
  unfold key_le. rewrite (key_compare_antisym a b).
  destruct (key_compare a b); simpl; auto.
Qed.

Lemma key_le_antisym (a b : Key) : key_le a b → key_le b a → a = b.
Proof.
  unfold key_le. rewrite (key_compare_antisym a b).
  destruct (key_compare a b) eqn:E; simpl; try done.
  intros _ _. by apply key_compare_eq.
Qed.

Lemma key_lt_le_trans (a b c : Key) :
  key_compare a b = Lt → key_le b c → key_compare a c = Lt.
Proof.
  intros H1 H2. unfold key_le in H2.
  destruct (key_compare b c) eqn:E; [|..|done].
  - apply key_compare_eq in E as <-. done.
  - by apply key_compare_lt_trans with b.
Qed.

(** ** The list sort *)

Section list_sort.
Context {A : Type} (k : A → Key).

Local Abbreviation lt := (λ x y : A, tuple_lt (k x) (k y)).
Local Abbreviation le := (λ x y : A, key_le (k x) (k y)).

Lemma insort_perm (x : A) (l : list A) : insort lt x l ≡ₚ x :: l.
Proof.
    induction l as [|y l IH]; simpl; [done|].
    destruct (tuple_lt (k x) (k y)); [done|].
    rewrite IH. apply Permutation_swap.
Qed.

Lemma insort_sorted (x : A) (l : list A) :
    StronglySorted le l → StronglySorted le (insort lt x l).
Proof.
    induction 1 as [|y l Hl IH Hy]; simpl.
    { repeat constructor. }
    destruct (tuple_lt (k x) (k y)) eqn:E.
    - apply tuple_lt_compare in E.
      constructor; [by constructor|].
      constructor; [by apply key_lt_le|].
      eapply Forall_impl; [exact Hy|]. simpl. intros z Hz.
      by apply key_lt_le, key_lt_le_trans with (k y).
    - constructor; [done|].
      rewrite insort_perm. constructor; [|done].
      by apply key_le_tuple_lt.
Qed.

  (** Behind everything that is not greater: an element that is not
      smaller than any other goes to the end. *)
Lemma insort_snoc (x : A) (l : list A) :
    Forall (λ y, key_le (k y) (k x)) l → insort lt x l = l ++ [x].
Proof.
    induction 1 as [|y l Hy _ IH]; simpl; [done|].
    apply key_le_tuple_lt in Hy. by rewrite Hy, IH.
Qed.

  (** The elements with one given key keep their order, the new element
      coming last among them. *)
Lemma insort_filter (key0 : Key) (x : A) (l : list A) :
    StronglySorted le l →
    filter (λ y, k y = key0) (insort lt x l)
    = filter (λ y, k y = key0) l ++ filter (λ y, k y = key0) [x].
Proof.
    induction 1 as [|y l Hl IH Hy]; simpl; [done|].
    destruct (tuple_lt (k x) (k y)) eqn:E.
    - apply tuple_lt_compare in E.
      rewrite (filter_cons _ x (y :: l)), (filter_cons _ x []), filter_nil.
      destruct (decide (k x = key0)) as [Hx|Hx]; [|by rewrite app_nil_r].
      assert (Forall (λ z, k z ≠ key0) (y :: l)) as Hne.
      { constructor.
        - intros Hy'. rewrite Hx, Hy' in E.
          by rewrite (proj2 (key_compare_eq _ _) eq_refl) in E.
        - eapply Forall_impl; [exact Hy|]. simpl. intros z Hz Hz'.
          pose proof (key_lt_le_trans _ _ _ E Hz) as E'.
          rewrite Hx, Hz' in E'.
          by rewrite (proj2 (key_compare_eq _ _) eq_refl) in E'. }
      assert (filter (λ z, k z = key0) (y :: l) = []) as ->; [|done].
      clear -Hne. induction Hne as [|z l' Hz _ IH]; [done|].
      by rewrite filter_cons_False.
    - rewrite !(filter_cons _ y), IH.
      by destruct (decide (k y = key0)).
Qed.

Lemma list_sort_from_perm (acc l : list A) :
    foldl (λ acc x, insort lt x acc) acc l ≡ₚ acc ++ l.
Proof.
    revert acc. induction l as [|x l IH]; intros acc; simpl.
    { by rewrite app_nil_r. }
    rewrite IH, insort_perm. simpl. apply Permutation_middle.
Qed.

Lemma list_sort_from_sorted (acc l : list A) :
    StronglySorted le acc →
    StronglySorted le (foldl (λ acc x, insort lt x acc) acc l).
Proof.
    revert acc. induction l as [|x l IH]; intros acc Hacc; simpl; [done|].
    by apply IH, insort_sorted.
Qed.

Lemma list_sort_from_filter (key0 : Key) (acc l : list A) :
    StronglySorted le acc →
    filter (λ y, k y = key0) (foldl (λ acc x, insort lt x acc) acc l)
    = filter (λ y, k y = key0) acc ++ filter (λ y, k y = key0) l.
Proof.
    revert acc. induction l as [|x l IH]; intros acc Hacc; simpl.
    { by rewrite filter_nil, app_nil_r. }
    rewrite IH by by apply insort_sorted.
    rewrite insort_filter by done.
    rewrite <- app_assoc. f_equal.
    by rewrite <- filter_app.
Qed.

Lemma list_sort_from_id (acc l : list A) :
    StronglySorted le (acc ++ l) →
    foldl (λ acc x, insort lt x acc) acc l = acc ++ l.
Proof.
    revert acc. induction l as [|x l IH]; intros acc Hs; simpl.
    { by rewrite app_nil_r. }
    rewrite insort_snoc.
    - rewrite IH; rewrite <- app_assoc; done.
    - apply StronglySorted_app in Hs as (Hs & _ & _).
      apply Forall_forall. intros y Hy. apply Hs; [done|]. by left.
Qed.

Lemma list_sort_perm (l : list A) : list_sort lt l ≡ₚ l.
Proof. apply (list_sort_from_perm []). Qed.

Lemma list_sort_sorted (l : list A) : StronglySorted le (list_sort lt l).
Proof. apply list_sort_from_sorted. constructor. Qed.

Lemma list_sort_stable (key0 : Key) (l : list A) :
    filter (λ y, k y = key0) (list_sort lt l) = filter (λ y, k y = key0) l.
Proof. apply (list_sort_from_filter key0 []). constructor. Qed.

Lemma list_sort_id (l : list A) :
    StronglySorted le l → list_sort lt l = l.
Proof. apply (list_sort_from_id []). Qed.
End list_sort.

(** ** [sorted] with a key that may raise *)

#[global] Instance exn_eq_dec : EqDecision exn.
Proof. solve_decision. Defined.

#[global] Instance result_eq_dec `{EqDecision A} : EqDecision (result A).
Proof. solve_decision. Defined.

Lemma mapM_Ok {A B} (f : A → result B) (l : list A) (ks : list B) :
  mapM f l = Ok ks ↔ Forall2 (λ x y, f x = Ok y) l ks.
Proof.
  revert ks. induction l as [|x l IH]; intros ks; simpl.
  - split; [intros [= <-]; constructor|by inversion 1].
  - unfold mbind, result_bind at 1. destruct (f x) as [y|e] eqn:Ex.
    + unfold mbind, result_bind at 1.
      destruct (mapM f l) as [ks'|e] eqn:El; simpl.
      * split.
        -- intros [= <-]. constructor; [done|]. by apply IH.
        -- inversion 1 as [|???? Hy Hl]; subst.
           rewrite Ex in Hy. injection Hy as ->.
           apply IH in Hl. by injection Hl as ->.
      * split; [done|]. inversion 1 as [|???? Hy Hl]; subst.
        by apply IH in Hl.
    + split; [done|]. inversion 1 as [|???? Hy Hl]; subst. congruence.
Qed.

Lemma mapM_Raise {A B} (f : A → result B) (l : list A) (e : exn) :
  mapM f l = Raise e → Exists (λ x, f x = Raise e) l.
Proof.
  induction l as [|x l IH]; simpl; [done|].
  unfold mbind, result_bind at 1. destruct (f x) as [y|e'] eqn:Ex.
  - unfold mbind, result_bind at 1. destruct (mapM f l) as [ks'|e'']; simpl; [done|].
    intros [= ->]. right. by apply IH.
  - intros [= ->]. by left.
Qed.

Lemma mapM_total {A B} (f : A → result B) (l : list A) :
  Forall (λ x, ∃ y, f x = Ok y) l → ∃ ks, mapM f l = Ok ks.
Proof.
  induction 1 as [|x l [y Hy] _ [ks IH]].
  - by exists [].
  - exists (y :: ks). apply mapM_Ok. constructor; [done|]. by apply mapM_Ok.
Qed.

(** A row can be given a key when it has the four fields the key reads. *)
Lemma sort_key_Ok (U : UnicodeData) (row : Row) :
  4 ≤ length row → ∃ key0, sort_key U row = Ok key0.
Proof.
  destruct row as [|r0 [|r1 [|r2 [|r3 row]]]]; simpl; try lia.
  intros _. eexists. reflexivity.
Qed.

Lemma sort_key_Raise (U : UnicodeData) (row : Row) :
  length row < 4 → sort_key U row = Raise IndexError.
Proof.
  destruct row as [|r0 [|r1 [|r2 [|r3 row]]]]; simpl; try lia; done.
Qed.

Lemma sort_key_length (U : UnicodeData) (row : Row) (key0 : Key) :
  sort_key U row = Ok key0 → 4 ≤ length row.
Proof.
  destruct row as [|r0 [|r1 [|r2 [|r3 row]]]]; simpl; try done.
  intros _. lia.
Qed.

Lemma keyed_zip (U : UnicodeData) (rows : list Row) (ks : list Key) :
  Forall2 (λ x y, sort_key U x = Ok y) rows ks →
  keyed U (zip ks rows) ∧ (zip ks rows).*2 = rows.
Proof.
  induction 1 as [|x y rows ks Hxy _ [IH1 IH2]]; simpl.
  - split; [constructor|done].
  - split; [by constructor|by f_equal].
Qed.

Lemma keyed_sorted (U : UnicodeData) (ps : list (Key * Row)) :
  keyed U ps →
  StronglySorted (λ p q, key_le p.1 q.1) ps →
  StronglySorted (row_le U) ps.*2.
Proof.
  intros Hk. induction 1 as [|p ps Hs IH Hp]; simpl; [constructor|].
  apply Forall_cons in Hk as [Hp' Hk].
  constructor; [by apply IH|].
  apply Forall_fmap, Forall_forall. intros q Hq. simpl.
  exists p.1, q.1. split_and!; [done|..].
  - by apply (proj1 (Forall_forall _ _) Hk).
  - by apply (proj1 (Forall_forall _ _) Hp).
Qed.

Lemma keyed_filter (U : UnicodeData) (key0 : Key) (ps : list (Key * Row)) :
  keyed U ps →
  filter (λ r, sort_key U r = Ok key0) ps.*2
  = (filter (λ p : Key * Row, p.1 = key0) ps).*2.
Proof.
  induction 1 as [|p ps Hp _ IH]; [done|].
  rewrite fmap_cons, !filter_cons, IH.
  destruct (decide (sort_key U p.2 = Ok key0)) as [H1|H1],
    (decide (p.1 = key0)) as [H2|H2]; try done.
  - rewrite Hp in H1. by injection H1.
  - rewrite Hp, H2 in H1. done.
Qed.

Lemma sorted_rows_Ok (U : UnicodeData) (rows out : list Row) :
  sorted_rows U rows = Ok out ↔
  ∃ ks, Forall2 (λ x y, sort_key U x = Ok y) rows ks ∧
        out = (list_sort (λ p q : Key * Row, tuple_lt p.1 q.1) (zip ks rows)).*2.
Proof.
  unfold sorted_rows, sorted. unfold mbind, result_bind at 1.
  destruct (mapM (sort_key U) rows) as [ks|e] eqn:E.
  - apply mapM_Ok in E. split.
    + intros [= <-]. by exists ks.
    + intros (ks' & H & ->). apply mapM_Ok in E, H.
      rewrite E in H. by injection H as ->.
  - split; [done|]. intros (ks' & H & _). apply mapM_Ok in H. congruence.
Qed.

Lemma sorted_rows_Raise (U : UnicodeData) (rows : list Row) (e : exn) :
  sorted_rows U rows = Raise e → Exists (λ r, sort_key U r = Raise e) rows.
Proof.
  unfold sorted_rows, sorted. unfold mbind, result_bind at 1.
  destruct (mapM (sort_key U) rows) eqn:E; [intros [=]|].
  intros [= ->]. by apply mapM_Raise.
Qed.

(** What sorting gives when it returns: the same rows, in the order of
    their keys, rows of one key in the order they came in. *)
Lemma sorted_rows_spec (U : UnicodeData) (rows out : list Row) :
  sorted_rows U rows = Ok out →
  out ≡ₚ rows ∧
  StronglySorted (row_le U) out ∧
  Forall (λ r, ∃ key0, sort_key U r = Ok key0) out ∧
  ∀ key0, filter (λ r, sort_key U r = Ok key0) out
          = filter (λ r, sort_key U r = Ok key0) rows.
Proof.
  intros H. apply sorted_rows_Ok in H as (ks & Hks & ->).
  destruct (keyed_zip U rows ks Hks) as [Hk Hrows].
  pose proof (list_sort_perm fst (zip ks rows)) as Hperm.
  assert (keyed U (list_sort (λ p q : Key * Row, tuple_lt p.1 q.1) (zip ks rows)))
    as Hk'.
  { unfold keyed. by rewrite Hperm. }
  split_and!.
  - by rewrite Hperm, Hrows.
  - apply keyed_sorted; [done|]. apply (list_sort_sorted fst).
  - apply Forall_fmap. eapply Forall_impl; [exact Hk'|]. simpl. eauto.
  - intros key0. rewrite (keyed_filter U key0 _ Hk').
    rewrite (list_sort_stable fst key0).
    by rewrite <- (keyed_filter U key0 _ Hk), Hrows.
Qed.

Lemma sorted_rows_total (U : UnicodeData) (rows : list Row) :
  Forall (λ r, 4 ≤ length r) rows → ∃ out, sorted_rows U rows = Ok out.
Proof.
  intros H.
  destruct (mapM_total (sort_key U) rows) as [ks Hks].
  { eapply Forall_impl; [exact H|]. apply sort_key_Ok. }
  eexists. apply sorted_rows_Ok. exists ks. split; [|done]. by apply mapM_Ok.
Qed.

(** Rows already in order are left as they are. *)
Lemma sorted_rows_id (U : UnicodeData) (rows : list Row) :
  Forall (λ r, ∃ key0, sort_key U r = Ok key0) rows →
  StronglySorted (row_le U) rows →
  sorted_rows U rows = Ok rows.
Proof.
  intros Hkeys Hs.
  destruct (mapM_total _ _ Hkeys) as [ks Hks].
  apply mapM_Ok in Hks.
  apply sorted_rows_Ok. exists ks. split; [done|].
  destruct (keyed_zip U rows ks Hks) as [Hk Hrows].
  rewrite (list_sort_id fst); [done|].
  clear Hkeys. induction Hks as [|x y rows ks Hxy Hks IH]; simpl; [constructor|].
  apply StronglySorted_cons in Hs as [Hx Hs].
  apply Forall_cons in Hk as [_ Hk]. simpl in Hrows. injection Hrows as Hrows.
  constructor; [by apply IH|].
  apply Forall_forall. intros [kz z] Hz. simpl.
  assert (z ∈ rows) as Hz'.
  { rewrite <- Hrows. apply list_elem_of_fmap. by exists (kz, z). }
  destruct (proj1 (Forall_forall _ _) Hx z Hz') as (ka & kb & Ha & Hb & Hle).
  pose proof (proj1 (Forall_forall _ _) Hk _ Hz) as Hkz. simpl in Hkz.
  congruence.
Qed.

(** ** The loop of the assembler *)

Lemma alter_last {A} (f : A → A) (l : list A) (x : A) :
  alter f (length l) (l ++ [x]) = l ++ [f x].
Proof. induction l as [|y l IH]; simpl; [done|]. by f_equal. Qed.

Lemma lookup_last {A} (l : list A) (x : A) : (l ++ [x]) !! length l = Some x.
Proof. by apply list_lookup_middle. Qed.

Ltac run_M :=
  cbv beta iota zeta delta
    [mbind M_bind mret M_ret lift print get_currltr set_currltr add_section
     add_heading add_paragraph doc_add_run doc_alter_run modify_document
     with_body document currltr stdout body page footer style_Title
     style_Normal on_para add_run alter_run fst snd runs alignment];
  change (negb (0 <=? 9)%N) with false; cbv beta iota.

(** The fields of a row of known shape. *)
Ltac get_items :=
  cbv beta iota zeta delta
    [getitem lookup list_lookup str_getitem mbind result_bind mret result_ret].

(** Case by case on the texts that are checked and on the comparison with
    the current letter. *)
Ltac crunch :=
  repeat (run_M;
          match goal with
          | |- context [if xml_compatible ?s then _ else _] =>
              destruct (xml_compatible s) eqn:?
          | |- context [if str_gt ?a ?b then _ else _] =>
              destruct (str_gt a b) eqn:?
          end);
  run_M.

Lemma loop_body_good (U : UnicodeData) (row : Row) (st : State) :
  good row → writes_ok U (currltr st) row = true →
  loop_body U row st = (Ok (), step U st row).
Proof.
  intros (c & t & r1 & r2 & r3 & rest & ->) Hw.
  destruct st as [[pg ft sT sN b] cur out].
  unfold writes_ok, opens, heading_for, lead in Hw. cbn [currltr] in Hw.
  apply andb_true_iff in Hw as [Hw H3].
  apply andb_true_iff in Hw as [Hw H2].
  apply andb_true_iff in Hw as [Hh H0].
  unfold loop_body, step, opens, heading_for, lead. get_items. run_M.
  destruct (str_gt (lower U [c]) cur); run_M.
  - rewrite Hh. run_M. rewrite H0, H2, H3. run_M.
    set (B := (b ++ [SectionBreak ODD_PAGE]) ++ _).
    repeat (rewrite ?lookup_last, ?alter_last; run_M).
    subst B. by rewrite <- !app_assoc.
  - rewrite H0, H2, H3. run_M.
    by repeat (rewrite ?lookup_last, ?alter_last; run_M).
Qed.

(** A good row with a text that is refused ends the loop body in
    ValueError. *)
Lemma loop_body_refused (U : UnicodeData) (row : Row) (st : State) :
  good row → writes_ok U (currltr st) row = false →
  (loop_body U row st).1 = Raise ValueError.
Proof.
  intros (c & t & r1 & r2 & r3 & rest & ->) Hw.
  destruct st as [[pg ft sT sN b] cur out].
  unfold writes_ok, opens, heading_for, lead in Hw. cbn [currltr] in Hw.
  unfold loop_body. get_items. revert Hw. crunch; try done.
  all: cbn [andb]; intros; congruence.
Qed.

(** A row that is not good ends the loop body in IndexError, unless a text
    is refused before the missing field is reached. *)
Lemma loop_body_short (U : UnicodeData) (row : Row) (st : State) :
  ¬ good row →
  (loop_body U row st).1 = Raise IndexError
  ∨ (loop_body U row st).1 = Raise ValueError.
Proof.
  intros Hbad.
  destruct row as [|[|c t] [|r1 [|r2 [|r3 rest]]]]; try (by left).
  4: { destruct Hbad. by exists c, t, r1, r2, r3, rest. }
  all: destruct st as [[pg ft sT sN b] cur out].
  all: unfold loop_body; get_items; crunch; auto.
Qed.

(** Whatever the row, the loop body leaves the current letter as it is or
    raises it to the lower-cased first character of the row. *)
Lemma loop_body_currltr (U : UnicodeData) (row : Row) (st : State) :
  currltr (loop_body U row st).2 = currltr st
  ∨ (opens U (currltr st) row = true ∧
     currltr (loop_body U row st).2 = lower U (lead row)).
Proof.
  destruct row as [|[|c t] rest]; [by left|by left|].
  destruct st as [[pg ft sT sN b] cur out].
  unfold opens, lead. cbn [currltr].
  destruct rest as [|r1 [|r2 [|r3 rest]]].
  all: unfold loop_body; get_items; crunch; auto.
Qed.

(** A row with no topic text, or no field at all, stops the loop body at
    [row[0][0]], before it has touched anything. *)
Lemma loop_body_no_lead (U : UnicodeData) (row : Row) (st : State) :
  lead row = [] → loop_body U row st = (Raise IndexError, st).
Proof. by destruct row as [|[|c t] rest]. Qed.

Lemma lead_good (row : Row) : 4 ≤ length row → lead row ≠ [] → good row.
Proof.
  destruct row as [|[|c t] [|r1 [|r2 [|r3 rest]]]]; simpl; try lia; try done.
  intros _ _. by exists c, t, r1, r2, r3, rest.
Qed.

Lemma good_lead (row : Row) : good row → 4 ≤ length row ∧ lead row ≠ [].
Proof. intros (c & t & r1 & r2 & r3 & rest & ->). simpl. split; [lia|done]. Qed.

Lemma step_currltr (U : UnicodeData) (st : State) (row : Row) :
  currltr (step U st row)
  = if opens U (currltr st) row then lower U (lead row) else currltr st.
Proof. unfold step. by destruct (opens U (currltr st) row). Qed.

Lemma for_each_good (U : UnicodeData) (rows : list Row) (st : State) :
  loop_ok U (currltr st) rows →
  for_each (loop_body U) rows st = (Ok (), foldl (step U) st rows).
Proof.
  revert st. induction rows as [|row rows IH]; intros st; [done|].
  intros (Hg & Hw & Hrest). simpl. unfold mbind, M_bind.
  rewrite loop_body_good by done. apply IH. by rewrite step_currltr.
Qed.

Lemma assemble_for_each (U : UnicodeData) (rows : list Row) (st : State) :
  assemble U rows st = for_each (loop_body U) rows (enter st).
Proof. done. Qed.

Lemma foldl_step_body (U : UnicodeData) (rows : list Row) (st : State) :
  body (document (foldl (step U) st rows))
  = body (document st) ++ blocks U (currltr st) rows.
Proof.
  revert st. induction rows as [|row rows IH]; intros st; simpl.
  { by rewrite app_nil_r. }
  rewrite IH. unfold step.
  destruct (opens U (currltr st) row); simpl; by rewrite <- app_assoc.
Qed.

Lemma good_or_not (row : Row) : good row ∨ ¬ good row.
Proof.
  destruct (decide (4 ≤ length row)) as [H1|H1];
    [destruct (decide (lead row = [])) as [H2|H2]|].
  - right. by intros [_ ?]%good_lead.
  - left. by apply lead_good.
  - right. by intros [? _]%good_lead.
Qed.

(** The loop runs to its end exactly on the rows of [loop_ok], and then it
    has done to the state what [step] says, row by row. *)
Lemma for_each_Ok (U : UnicodeData) (rows : list Row) (st st' : State) :
  for_each (loop_body U) rows st = (Ok (), st') ↔
  loop_ok U (currltr st) rows ∧ st' = foldl (step U) st rows.
Proof.
  split; [|intros [H ->]; by apply for_each_good].
  revert st. induction rows as [|row rows IH]; intros st; simpl.
  { intros [= <-]. by split. }
  unfold mbind, M_bind.
  destruct (good_or_not row) as [Hg|Hb].
  - destruct (writes_ok U (currltr st) row) eqn:Hw.
    + rewrite loop_body_good by done. intros [H1 H2]%IH.
      rewrite step_currltr in H1. by split_and!.
    + pose proof (loop_body_refused U row st Hg Hw) as E.
      destruct (loop_body U row st) as [[[]|e] st1]; simpl in E; [done|].
      intros [=].
  - destruct (loop_body_short U row st Hb) as [E|E];
      destruct (loop_body U row st) as [[[]|e] st1]; simpl in E; try done;
      intros [=].
Qed.

Lemma loop_body_Ok (U : UnicodeData) (row : Row) (st st' : State) :
  loop_body U row st = (Ok (), st') →
  good row ∧ writes_ok U (currltr st) row = true ∧ st' = step U st row.
Proof.
  destruct (good_or_not row) as [Hg|Hb].
  - destruct (writes_ok U (currltr st) row) eqn:Hw.
    + rewrite loop_body_good by done. by intros [= <-].
    + pose proof (loop_body_refused U row st Hg Hw) as E.
      intros H. rewrite H in E. done.
  - intros H. destruct (loop_body_short U row st Hb) as [E|E];
      rewrite H in E; done.
Qed.

Lemma xml_compatible_app (a b : str) :
  xml_compatible (a ++ b) = xml_compatible a && xml_compatible b.
Proof. apply forallb_app. Qed.

Lemma writes_ok_fields (U : UnicodeData) (cur : str) (row : Row) :
  writes_ok U cur row = true → forallb xml_compatible (take 4 row) = true.
Proof.
  destruct row as [|r0 [|r1 [|r2 [|r3 rest]]]]; try done.
  unfold writes_ok. rewrite !xml_compatible_app. cbn [take forallb].
  rewrite !andb_true_iff. intros [[[_ ?] (_ & ? & _ & ? & _)] ?]. by split_and!.
Qed.

Lemma texts_ok_writes_ok (U : UnicodeData) (cur : str) (row : Row) :
  4 ≤ length row → texts_ok U row = true → writes_ok U cur row = true.
Proof.
  destruct row as [|r0 [|r1 [|r2 [|r3 rest]]]]; cbn [length]; try lia. intros _.
  unfold texts_ok, writes_ok. rewrite !xml_compatible_app. cbn [take forallb].
  rewrite !andb_true_iff. intros (Hh & H0 & H1 & H2 & H3 & _).
  split_and!; try done. by destruct (opens U cur _).
Qed.

Lemma loop_ok_good (U : UnicodeData) (cur : str) (rows : list Row) :
  loop_ok U cur rows →
  Forall (λ row, good row ∧ forallb xml_compatible (take 4 row) = true) rows.
Proof.
  revert cur. induction rows as [|row rows IH]; intros cur; [constructor|].
  intros (Hg & Hw & Hrest). constructor; [|by eapply IH].
  split; [done|]. by eapply writes_ok_fields.
Qed.

Lemma texts_ok_loop_ok (U : UnicodeData) (cur : str) (rows : list Row) :
  Forall good rows → Forall (λ row, texts_ok U row = true) rows →
  loop_ok U cur rows.
Proof.
  intros Hg. revert cur. induction Hg as [|row rows Hrow _ IH]; intros cur Ht; [done|].
  apply Forall_cons in Ht as [Ht Hts]. split_and!; [done| |by apply IH].
  apply texts_ok_writes_ok; [|done]. by apply good_lead in Hrow as [? _].
Qed.

(** ** The Row Sorter *)



(** C5. The sort is stable: the rows that have one and the same key stand
    in the output in the order in which they stood in the input. *)
Theorem sorted_rows_stable (U : UnicodeData) (csvin out : list Row) (key0 : Key) :
  sorted_rows U csvin = Ok out →
  filter (λ row, sort_key U row = Ok key0) out
  = filter (λ row, sort_key U row = Ok key0) csvin.
Proof.
  intros H. by destruct (sorted_rows_spec U csvin out H) as (_ & _ & _ & ->).
Qed.

Lemma sorted_rows_stable_witness :
  sorted_rows ascii_only stable_input
  = Ok [ [lit "A"; lit "1"; lit "1"; lit "x"; lit "first"];
         [lit "a"; lit "1"; lit "1"; lit "X"; lit "second"];
         [lit "b"; lit "1"; lit "1"; lit "x"] ] ∧
  filter (λ row, sort_key ascii_only row = Ok (lit "a", lit "1", lit "1", lit "x"))
    [ [lit "A"; lit "1"; lit "1"; lit "x"; lit "first"];
      [lit "a"; lit "1"; lit "1"; lit "X"; lit "second"];
      [lit "b"; lit "1"; lit "1"; lit "x"] ]
  = filter (λ row, sort_key ascii_only row = Ok (lit "a", lit "1", lit "1", lit "x"))
      stable_input.
Proof.
  assert (sorted_rows ascii_only stable_input
          = Ok [ [lit "A"; lit "1"; lit "1"; lit "x"; lit "first"];
                 [lit "a"; lit "1"; lit "1"; lit "X"; lit "second"];
                 [lit "b"; lit "1"; lit "1"; lit "x"] ]) as H.
  { by vm_compute. }
  split; [exact H|].
  exact (sorted_rows_stable ascii_only stable_input _
           (lit "a", lit "1", lit "1", lit "x") H).
Defined.

(** C8. Sorting is idempotent: rows that are in the order of their keys
    come back unchanged, and so does the output of a sort when it is
    sorted again. *)
Theorem sorted_rows_idempotent (U : UnicodeData) (csvin out : list Row) :
  sorted_rows U csvin = Ok out →
  sorted_rows U out = Ok out ∧
  ∀ rows, Forall (λ row, 4 ≤ length row) rows →
          StronglySorted (row_le U) rows →
          sorted_rows U rows = Ok rows.
Proof.
  intros H. destruct (sorted_rows_spec U csvin out H) as (_ & Hs & Hk & _).
  split; [by apply sorted_rows_id|].
  intros rows Hlen Hrows. apply sorted_rows_id; [|done].
  eapply Forall_impl; [exact Hlen|]. apply sort_key_Ok.
Qed.

Lemma sorted_rows_idempotent_witness :
  sorted_rows ascii_only [Apple_9; apple_10] = Ok [apple_10; Apple_9] ∧
  sorted_rows ascii_only [apple_10; Apple_9] = Ok [apple_10; Apple_9].
Proof.
  assert (sorted_rows ascii_only [Apple_9; apple_10] = Ok [apple_10; Apple_9])
    as H by by vm_compute.
  split; [exact H|].
  exact (proj1 (sorted_rows_idempotent ascii_only _ _ H)).
Defined.

(** ** The footer *)

Lemma alter_run_last (f : Run → Run) (a : option WD_ALIGN_PARAGRAPH)
    (rs : list Run) (r : Run) :
  alter_run f (length rs) {| alignment := a; runs := rs ++ [r] |}
  = {| alignment := a; runs := rs ++ [f r] |}.
Proof. unfold alter_run. simpl. by rewrite alter_last. Qed.

Lemma add_page_numbers_runs (paragraph : Paragraph) :
  add_page_numbers paragraph
  = {| alignment := Some CENTER;
       runs := runs paragraph ++
               [ literal_run (lit "Page "); field_run (lit "PAGE");
                 literal_run (lit " of "); field_run (lit "NUMPAGES") ] |}.
Proof.
  destruct paragraph as [a rs]. unfold add_page_numbers, add_run, set_alignment.
  cbn [runs alignment].
  repeat (rewrite !alter_run_last; cbn [runs alignment]).
  by rewrite <- !app_assoc.
Qed.

(** C7, as the code has it.  The footer paragraph is centred and receives
    four runs and no more: the literal text "Page ", a PAGE field, the
    literal text " of ", and a NUMPAGES field.  Each field is a begin mark,
    an instruction and an end mark, which the viewer evaluates; it holds no
    text of its own, so that no page number is written into the document.
    Nothing follows the second field. *)
Theorem footer_page_number_fields (paragraph : Paragraph) :
  runs (add_page_numbers paragraph)
  = runs paragraph ++
    [ literal_run (lit "Page "); field_run (lit "PAGE");
      literal_run (lit " of "); field_run (lit "NUMPAGES") ] ∧
  alignment (add_page_numbers paragraph) = Some CENTER ∧
  runs (footer (configure Document_new))
  = [ literal_run (lit "Page "); field_run (lit "PAGE");
      literal_run (lit " of "); field_run (lit "NUMPAGES") ] ∧
  run_shown (field_run (lit "PAGE")) = [] ∧
  run_shown (field_run (lit "NUMPAGES")) = [] ∧
  paragraph_text (footer (configure Document_new)) = lit "Page  of ".
Proof.
  rewrite add_page_numbers_runs. split_and!; by vm_compute.
Qed.

(** The claim has a literal text after the second field; the footer has
    none: its last run is the NUMPAGES field. *)
Lemma footer_no_trailing_text :
  ¬ ∃ trailing : str,
      runs (add_page_numbers new_paragraph)
      = [ literal_run (lit "Page "); field_run (lit "PAGE");
          literal_run (lit " of "); field_run (lit "NUMPAGES");
          literal_run trailing ].
Proof. intros [trailing H]. vm_compute in H. discriminate H. Qed.

(** ** The example document *)

(** C6. The rows Zebra and apple are sorted apple first.  After the first
    heading "#", the body of the document holds two sections, headed "Aa"
    and "Zz", of one entry each; the entries read "apple [b3/p2] desc2" and
    "Zebra [b1/p5] desc1".  In each the topic run is bold and coloured, the
    location run " [b.../p...] " is italic, and the comment run carries no
    formatting. *)
Theorem zebra_apple_document (U : UnicodeData) :
  sorted_rows U [Zebra; apple] = Ok [apple; Zebra] ∧
  ∃ st,
    assemble U [apple; Zebra] st0 = (Ok (), st) ∧
    body (document st)
    = [ Heading (lit "#") 0;
        SectionBreak ODD_PAGE; Heading (lit "Aa") 0;
        Para {| alignment := None;
                runs := entry_runs (lit "apple") (lit " [b3/p2] ") (lit "desc2") |};
        SectionBreak ODD_PAGE; Heading (lit "Zz") 0;
        Para {| alignment := None;
                runs := entry_runs (lit "Zebra") (lit " [b1/p5] ") (lit "desc1") |} ] ∧
    paragraph_text
      {| alignment := None;
         runs := entry_runs (lit "apple") (lit " [b3/p2] ") (lit "desc2") |}
    = lit "apple [b3/p2] desc2" ∧
    paragraph_text
      {| alignment := None;
         runs := entry_runs (lit "Zebra") (lit " [b1/p5] ") (lit "desc1") |}
    = lit "Zebra [b1/p5] desc1" ∧
    status (main U (lit "index.csv") [Zebra; apple] ∅) = Ok () ∧
    files (main U (lit "index.csv") [Zebra; apple] ∅)
    = {[ lit "index.docx" := Docx (document st) ]}.
Proof.
  assert (sorted_rows U [Zebra; apple] = Ok [apple; Zebra]) as Hs by by vm_compute.
  split; [exact Hs|].
  exists (assemble U [apple; Zebra] st0).2.
  assert (assemble U [apple; Zebra] st0
          = (Ok (), (assemble U [apple; Zebra] st0).2)) as E by by vm_compute.
  split; [exact E|].
  split; [by vm_compute|]. split; [by vm_compute|]. split; [by vm_compute|].
  generalize dependent (assemble U [apple; Zebra] st0).2. intros st E.
  unfold main. rewrite Hs.
  change ((splitext (lit "index.csv")).1 ++ lit ".docx") with (lit "index.docx").
  unfold isfile. rewrite lookup_empty, E. cbn [status files].
  split; [done|]. apply insert_empty.
Qed.

(** ** Rows that do not fit *)

Lemma sort_key_exn (U : UnicodeData) (row : Row) (e : exn) :
  sort_key U row = Raise e → e = IndexError.
Proof.
  destruct row as [|r0 [|r1 [|r2 [|r3 row]]]]; intros [=]; done.
Qed.

Lemma sorted_rows_short (U : UnicodeData) (csvin : list Row) :
  Exists (λ row, length row < 4) csvin →
  sorted_rows U csvin = Raise IndexError.
Proof.
  intros H. destruct (sorted_rows U csvin) as [out|e] eqn:E.
  - apply sorted_rows_Ok in E as (ks & Hks & _).
    apply Exists_exists in H as (row & Hin & Hlen).
    apply list_elem_of_lookup in Hin as [i Hi].
    destruct (Forall2_lookup_l _ _ _ _ _ Hks Hi) as (key0 & _ & Hkey).
    apply sort_key_length in Hkey. lia.
  - apply sorted_rows_Raise, Exists_exists in E as (row & _ & Hrow).
    by rewrite (sort_key_exn _ _ _ Hrow).
Qed.

(** C3, as the code has it.  A row with fewer than four fields ends the run
    with an uncaught IndexError, raised while the sort keys are computed:
    before the existence check, before the document is created and before
    anything is printed.  The files are left as they were and the exit
    status is 1.  The exception is the interpreter's own and names no
    row. *)
Theorem short_row_IndexError (U : UnicodeData) (csvfile : str)
    (csvin : list Row) (fs : Files) :
  Exists (λ row, length row < 4) csvin →
  sorted_rows U csvin = Raise IndexError ∧
  main U csvfile csvin fs
  = {| status := Raise IndexError; printed := []; files := fs |} ∧
  exit_status (main U csvfile csvin fs) = 1%Z.
Proof.
  intros H. pose proof (sorted_rows_short U csvin H) as E.
  split; [done|]. unfold exit_status, main. by rewrite E.
Qed.

Lemma short_row_IndexError_witness :
  Exists (λ row : Row, length row < 4) [apple; [lit "orphan"; lit "7"]] ∧
  main ascii_only (lit "index.csv") [apple; [lit "orphan"; lit "7"]] ∅
  = {| status := Raise IndexError; printed := []; files := ∅ |}.
Proof.
  assert (Exists (λ row : Row, length row < 4) [apple; [lit "orphan"; lit "7"]])
    as H.
  { right. left. simpl. lia. }
  split; [exact H|].
  exact (proj1 (proj2 (short_row_IndexError ascii_only (lit "index.csv") _ ∅ H))).
Defined.

(** Against C3: a row of five fields does not have exactly four, and the
    run ends normally with the document written. *)
Lemma five_fields_accepted :
  length five_fields ≠ 4 ∧
  ∀ U, status (main U (lit "index.csv") [five_fields] ∅) = Ok () ∧
       exit_status (main U (lit "index.csv") [five_fields] ∅) = 0%Z ∧
       is_Some (files (main U (lit "index.csv") [five_fields] ∅)
                  !! lit "index.docx") ∧
       files (main U (lit "index.csv") [five_fields] ∅) ≠ ∅.
Proof.
  split; [simpl; lia|]. intros U.
  assert (sorted_rows U [five_fields] = Ok [five_fields]) as Hs by by vm_compute.
  assert (assemble U [five_fields] st0
          = (Ok (), (assemble U [five_fields] st0).2)) as E by by vm_compute.
  unfold exit_status, main. rewrite Hs.
  change ((splitext (lit "index.csv")).1 ++ lit ".docx") with (lit "index.docx").
  unfold isfile. rewrite lookup_empty, E. cbn [status files].
  split_and!; try done.
  all: first [rewrite lookup_insert_eq; by eexists | apply insert_non_empty].
Qed.

(** ** The target that exists *)

(** C4, as the code has it.  When the target exists, no file is written,
    nothing is printed and the exit status is not 0.  The rows are read and
    their sort keys computed before the target is looked at: a row with
    fewer than four fields ends the run with IndexError; when every row has
    four fields or more the run ends in [parser.error], with the message
    that the target already exists, before the document is created and
    before any row is written into it. *)
Theorem existing_target_untouched (U : UnicodeData) (csvfile : str)
    (csvin : list Row) (fs : Files) :
  isfile fs (docfile_of csvfile) = true →
  files (main U csvfile csvin fs) = fs ∧
  printed (main U csvfile csvin fs) = [] ∧
  exit_status (main U csvfile csvin fs) ≠ 0%Z ∧
  (Forall (λ row, 4 ≤ length row) csvin →
   status (main U csvfile csvin fs)
   = Raise (parser_error (docfile_of csvfile ++ lit " already exists.")) ∧
   exit_status (main U csvfile csvin fs) = 2%Z) ∧
  (Exists (λ row, length row < 4) csvin →
   status (main U csvfile csvin fs) = Raise IndexError).
Proof.
  intros Hfile. unfold exit_status, main. fold (docfile_of csvfile).
  destruct (sorted_rows U csvin) as [out|e] eqn:E.
  - rewrite Hfile. cbn [files printed status parser_error].
    split_and!; try done.
    intros H. apply sorted_rows_short with (U := U) in H. congruence.
  - cbn [files printed status].
    apply sorted_rows_Raise, Exists_exists in E as (row & Hin & Hrow).
    pose proof (sort_key_exn _ _ _ Hrow) as ->.
    split_and!; try done.
    intros H. destruct (sort_key_Ok U row) as [key0 Hkey]; [|congruence].
    by apply (proj1 (Forall_forall _ _) H).
Qed.

Lemma existing_target_untouched_witness :
  isfile {[ lit "index.docx" := Other [] ]} (docfile_of (lit "index.csv")) = true ∧
  files (main ascii_only (lit "index.csv") [Zebra; apple]
           {[ lit "index.docx" := Other [] ]})
  = {[ lit "index.docx" := Other [] ]}.
Proof.
  assert (isfile {[ lit "index.docx" := Other [] ]} (docfile_of (lit "index.csv"))
          = true) as H.
  { change (docfile_of (lit "index.csv")) with (lit "index.docx").
    unfold isfile. by rewrite lookup_singleton_eq. }
  split; [exact H|].
  exact (proj1 (existing_target_untouched ascii_only (lit "index.csv")
                  [Zebra; apple] _ H)).
Defined.

(** Against C4: the target exists, and yet the run does not end in the
    message that it exists.  The rows are gone through first, and the row of
    one field ends the run with IndexError. *)
Lemma existing_target_rows_read_first :
  isfile {[ lit "index.docx" := Other [] ]} (docfile_of (lit "index.csv")) = true ∧
  ∀ U,
    status (main U (lit "index.csv") [[lit "orphan"]]
              {[ lit "index.docx" := Other [] ]})
    = Raise IndexError ∧
    status (main U (lit "index.csv") [[lit "orphan"]]
              {[ lit "index.docx" := Other [] ]})
    ≠ Raise (parser_error (docfile_of (lit "index.csv") ++ lit " already exists.")).
Proof.
  split.
  { change (docfile_of (lit "index.csv")) with (lit "index.docx").
    unfold isfile. by rewrite lookup_singleton_eq. }
  intros U.
  assert (sorted_rows U [[lit "orphan"]] = Raise IndexError) as E by by vm_compute.
  unfold main. rewrite E. cbn [status]. done.
Qed.

(** ** The current letter *)

#[global] Instance str_le_refl : Reflexive str_le.
Proof. intros a. unfold str_le. by rewrite str_compare_refl. Qed.

#[global] Instance str_le_trans : Transitive str_le.
Proof.
  intros a b c. unfold str_le.
  destruct (str_compare a b) eqn:E1; [|..|done].
  { apply str_compare_eq in E1 as ->. done. }
  destruct (str_compare b c) eqn:E2; [|..|done].
  { apply str_compare_eq in E2 as <-. by rewrite E1. }
  by rewrite (str_compare_trans _ _ _ _ E1 E2).
Qed.

Lemma str_le_antisym (a b : str) : str_le a b → str_le b a → a = b.
Proof.
  unfold str_le. rewrite (str_compare_antisym a b).
  destruct (str_compare a b) eqn:E; simpl; try done.
  intros _ _. by apply str_compare_eq.
Qed.

Lemma str_gt_lt (a b : str) : str_gt a b = true ↔ str_compare b a = Lt.
Proof.
  unfold str_gt. rewrite (str_compare_antisym a b).
  destruct (str_compare a b); simpl; split; congruence.
Qed.

Lemma str_gt_le (a b : str) : str_gt a b = false ↔ str_le a b.
Proof. unfold str_gt, str_le. destruct (str_compare a b); split; congruence. Qed.

Lemma str_lt_le (a b : str) : str_compare a b = Lt → str_le a b.
Proof. unfold str_le. congruence. Qed.

Lemma str_lt_le_trans (a b c : str) :
  str_compare a b = Lt → str_le b c → str_compare a c = Lt.
Proof.
  intros H1 H2. unfold str_le in H2.
  destruct (str_compare b c) eqn:E; [|..|done].
  - apply str_compare_eq in E as <-. done.
  - by apply str_compare_trans with b.
Qed.

Lemma str_le_lt_trans (a b c : str) :
  str_le a b → str_compare b c = Lt → str_compare a c = Lt.
Proof.
  intros H1 H2. unfold str_le in H1.
  destruct (str_compare a b) eqn:E; [|..|done].
  - apply str_compare_eq in E as ->. done.
  - by apply str_compare_trans with b.
Qed.

Lemma loop_body_cursor (U : UnicodeData) (row : Row) (st : State) :
  str_le (currltr st) (currltr (loop_body U row st).2).
Proof.
  destruct (loop_body_currltr U row st) as [->|[E ->]]; [done|].
  by apply str_lt_le, str_gt_lt.
Qed.

Lemma for_each_cursor (U : UnicodeData) (rows : list Row) (st : State) :
  str_le (currltr st) (currltr (for_each (loop_body U) rows st).2).
Proof.
  revert st. induction rows as [|row rows IH]; intros st; [done|].
  simpl. unfold mbind, M_bind.
  pose proof (loop_body_cursor U row st) as H.
  destruct (loop_body U row st) as [[[]|e] st1]; simpl in *; [|done].
  by etrans; [exact H|apply IH].
Qed.

(** What the loop does to the body and to the current letter, for rows it
    gets through. *)
Lemma assemble_Ok (U : UnicodeData) (rows : list Row) (st st' : State) :
  assemble U rows st = (Ok (), st') →
  Forall good rows ∧
  body (document st')
  = body (document st) ++ Heading (lit "#") 0 :: blocks U (lit "`") rows.
Proof.
  rewrite assemble_for_each. intros [Hg ->]%for_each_Ok. split.
  - eapply Forall_impl; [exact (loop_ok_good _ _ _ Hg)|]. by intros row [? _].
  - rewrite foldl_step_body. simpl. by rewrite <- app_assoc.
Qed.

Lemma blocks_app_no_open (U : UnicodeData) (cur : str) (l1 l2 : list Row) :
  Forall (λ row, str_le (lower U (lead row)) cur) l1 →
  blocks U cur (l1 ++ l2) = (Para ∘ entry <$> l1) ++ blocks U cur l2.
Proof.
  induction 1 as [|row l1 Hrow _ IH]; simpl; [done|].
  unfold opens. apply str_gt_le in Hrow. by rewrite Hrow, IH.
Qed.

(** The rows that open a section: the current letter rises strictly from
    one to the next, starting above [cur]. *)
Lemma blocks_openers (U : UnicodeData) (cur : str) (rows : list Row) :
  ∃ openers,
    sublist openers rows ∧
    headings (blocks U cur rows) = heading_for U <$> openers ∧
    breaks (blocks U cur rows) = replicate (length openers) ODD_PAGE ∧
    StronglySorted (λ a b, str_compare a b = Lt)
      (cur :: ((λ row, lower U (lead row)) <$> openers)).
Proof.
  revert cur. induction rows as [|row rows IH]; intros cur; simpl.
  { exists []. split_and!; try done. repeat constructor. }
  destruct (opens U cur row) eqn:E.
  - destruct (IH (lower U (lead row))) as (openers & Hsub & Hh & Hb & Hs).
    exists (row :: openers). split_and!.
    + by constructor.
    + simpl. f_equal. exact Hh.
    + simpl. f_equal. exact Hb.
    + apply str_gt_lt in E. simpl. constructor; [done|].
      constructor; [done|].
      apply StronglySorted_cons in Hs as [Hs _].
      eapply Forall_impl; [exact Hs|]. simpl. intros x Hx.
      by apply str_compare_trans with (lower U (lead row)).
  - destruct (IH cur) as (openers & Hsub & Hh & Hb & Hs).
    exists openers. split_and!; try done. by constructor.
Qed.

Lemma str_le_head (x y : N) (l l' : str) : str_le (x :: l) (y :: l') → (x ≤ y)%N.
Proof.
  unfold str_le, str_compare. simpl.
  destruct (N.compare_spec x y); [lia|lia|done].
Qed.

Lemma str_le_single (x y : N) : (x ≤ y)%N → str_le [x] [y].
Proof.
  unfold str_le, str_compare. simpl.
  destruct (N.compare_spec x y); [done|done|lia].
Qed.

Lemma row_le_topic (U : UnicodeData) (a b : Row) (ta tb : str) :
  row_le U a b → a !! 0 = Some ta → b !! 0 = Some tb →
  str_le (casefold U ta) (casefold U tb).
Proof.
  intros (ka & kb & Ha & Hb & Hle) Hta Htb.
  destruct a as [|a0 [|a1 [|a2 [|a3 a]]]]; try done.
  destruct b as [|b0 [|b1 [|b2 [|b3 b]]]]; try done.
  simpl in Hta, Htb. injection Hta as ->. injection Htb as ->.
  injection Ha as <-. injection Hb as <-.
  unfold key_le, key_compare in Hle. simpl in Hle.
  unfold str_le. by destruct (str_compare (casefold U ta) (casefold U tb)).
Qed.

Lemma lower_lead_under_backtick (U : UnicodeData) (c : N) :
  lower_above_backtick U →
  str_le (lower U [c]) (lit "`") →
  (c < 128)%N ∧ (ascii_lower c ≤ 96)%N.
Proof.
  intros HU. unfold lower, lower_char, is_ascii.
  change (mbind ?f [c]) with (f c ++ []). rewrite app_nil_r.
  change (lit "`") with [96%N].
  destruct (N.ltb_spec c 128) as [Hc|Hc].
  - intros H%str_le_head. done.
  - destruct (HU c Hc) as (d & s & -> & Hd). intros H%str_le_head. lia.
Qed.

(** In the order of the sort, a row whose first letter lower-cases to
    something not above the backtick is preceded by such rows only. *)
Lemma row_le_under_backtick (U : UnicodeData) (a b : Row) :
  lower_above_backtick U → casefold_above_backtick U →
  row_le U a b → good a → good b →
  str_le (lower U (lead b)) (lit "`") →
  str_le (lower U (lead a)) (lit "`").
Proof.
  intros HL HF Hab (ca & ta & ? & ? & ? & ? & ->) (cb & tb & ? & ? & ? & ? & ->) Hb.
  pose proof (row_le_topic U _ _ (ca :: ta) (cb :: tb) Hab eq_refl eq_refl) as Hle.
  simpl in Hb. apply lower_lead_under_backtick in Hb as [Hcb Hlb]; [|done].
  unfold casefold in Hle.
  change (mbind ?f (ca :: ta)) with (f ca ++ mbind f ta) in Hle.
  change (mbind ?f (cb :: tb)) with (f cb ++ mbind f tb) in Hle.
  unfold casefold_char at 1 3, is_ascii in Hle.
  destruct (N.ltb_spec cb 128) as [_|?]; [|lia].
  simpl. unfold lower. change (mbind ?f [ca]) with (f ca ++ []).
  rewrite app_nil_r. unfold lower_char, is_ascii.
  change (lit "`") with [96%N].
  destruct (N.ltb_spec ca 128) as [Hca|Hca].
  - apply str_le_head in Hle. apply str_le_single. lia.
  - destruct (HF ca Hca) as (d & s & Hd & Hlt). rewrite Hd in Hle.
    apply str_le_head in Hle. lia.
Qed.

(** The two facts hold of the table that leaves everything outside ASCII
    alone. *)
Lemma ascii_only_above_backtick :
  lower_above_backtick ascii_only ∧ casefold_above_backtick ascii_only.
Proof. split; intros c Hc; exists c, []; (split; [done|lia]). Qed.

(** C10. (1) Through the loop the current letter never goes down, whatever
    the rows and however the loop ends, and from its first value, the
    backtick, it is never below it.  (2) A row the loop body gets through
    has opened a section, and written its heading, exactly when its
    lower-cased first letter was greater than the current letter, which
    then becomes that letter; its entry follows in either case; and the
    loop body gets through every row with a topic and four fields whose
    texts are such as the document takes.  (3) So a
    row whose lower-cased first letter is not above the backtick, when the
    loop body gets through it, has opened no section: its entry alone is
    added.  (4) When the loop runs to its end, the headings after "#" are
    those of the rows that opened a section, one section break each, and
    the lower-cased letters of these rows rise strictly, starting above the
    backtick.  (5) In the sorted rows, every row up to and including one
    whose lower-cased first letter is not above the backtick is written
    straight under the heading "#"; this part rests on the two facts about
    the Unicode tables stated with [lower_above_backtick]. *)
Theorem current_letter_and_sections (U : UnicodeData) :
  (∀ rows st,
     str_le (currltr st) (currltr (for_each (loop_body U) rows st).2)) ∧
  (∀ rows st, str_le (lit "`") (currltr (assemble U rows st).2)) ∧
  (∀ row st st',
     loop_body U row st = (Ok (), st') →
     body (document st')
     = body (document st)
       ++ (if str_gt (lower U (lead row)) (currltr st)
           then [SectionBreak ODD_PAGE;
                 Heading (upper U (lead row) ++ lower U (lead row)) 0]
           else [])
       ++ [Para (entry row)] ∧
     currltr st'
     = if str_gt (lower U (lead row)) (currltr st)
       then lower U (lead row) else currltr st) ∧
  (∀ row st,
     good row → texts_ok U row = true → (loop_body U row st).1 = Ok ()) ∧
  (∀ pre row st st1 st2,
     assemble U pre st = (Ok (), st1) →
     loop_body U row st1 = (Ok (), st2) →
     str_le (lower U (lead row)) (lit "`") →
     st2 = {| document := with_body (λ b, b ++ [Para (entry row)]) (document st1);
              currltr := currltr st1; stdout := stdout st1 |}) ∧
  (∀ rows st st',
     assemble U rows st = (Ok (), st') →
     ∃ openers,
       sublist openers rows ∧
       headings (body (document st'))
       = headings (body (document st)) ++ lit "#" :: (heading_for U <$> openers) ∧
       breaks (body (document st'))
       = breaks (body (document st)) ++ replicate (length openers) ODD_PAGE ∧
       StronglySorted (λ a b, str_compare a b = Lt)
         (lit "`" :: ((λ row, lower U (lead row)) <$> openers))) ∧
  (lower_above_backtick U → casefold_above_backtick U →
   ∀ csvin pre row post st',
     sorted_rows U csvin = Ok (pre ++ row :: post) →
     assemble U (pre ++ row :: post) st0 = (Ok (), st') →
     str_le (lower U (lead row)) (lit "`") →
     body (document st')
     = Heading (lit "#") 0 :: (Para ∘ entry <$> pre ++ [row])
       ++ blocks U (lit "`") post).
Proof.
  split_and!.
  - apply for_each_cursor.
  - intros rows st. rewrite assemble_for_each.
    apply (for_each_cursor U rows (enter st)).
  - intros row st st' (_ & _ & ->)%loop_body_Ok.
    unfold step, opens, heading_for.
    destruct (str_gt (lower U (lead row)) (currltr st)); simpl; by split.
  - intros row st Hg Ht. rewrite loop_body_good; [done|done|].
    apply texts_ok_writes_ok; [|done]. by apply good_lead in Hg as [? _].
  - intros pre row st st1 st2 Hpre (_ & _ & ->)%loop_body_Ok Hrow.
    unfold step, opens.
    assert (str_le (lit "`") (currltr st1)) as Hcur.
    { rewrite assemble_for_each in Hpre.
      pose proof (for_each_cursor U pre (enter st)) as H. by rewrite Hpre in H. }
    assert (str_gt (lower U (lead row)) (currltr st1) = false) as ->; [|done].
    apply str_gt_le. by etrans.
  - intros rows st st' [_ ->]%assemble_Ok.
    destruct (blocks_openers U (lit "`") rows) as (openers & Hsub & Hh & Hb & Hs).
    exists openers. split_and!; try done.
    + unfold headings. rewrite omap_app. f_equal.
      change (lit "#" :: headings (blocks U (lit "`") rows)
              = lit "#" :: (heading_for U <$> openers)). by rewrite Hh.
    + unfold breaks. rewrite omap_app. f_equal.
      change (breaks (blocks U (lit "`") rows)
              = replicate (length openers) ODD_PAGE). done.
  - intros HL HF csvin pre row post st' Hsort [Hg ->]%assemble_Ok Hrow.
    change (body (document st0)) with (@nil Block). simpl. f_equal.
    change (pre ++ row :: post) with (pre ++ [row] ++ post).
    rewrite app_assoc. apply blocks_app_no_open.
    destruct (sorted_rows_spec U _ _ Hsort) as (_ & Hs & _).
    apply StronglySorted_app in Hs as (Hpre & _ & _).
    apply Forall_app. split; [|by constructor].
    apply Forall_forall. intros a Ha.
    apply (row_le_under_backtick U a row); try done.
    + apply Hpre; [done|by left].
    + apply (proj1 (Forall_forall _ _) Hg). apply elem_of_app. by left.
    + apply (proj1 (Forall_forall _ _) Hg). apply elem_of_app. right. by left.
Qed.

(** ** The topic that is empty *)

Lemma no_lead_lookup (row : Row) :
  4 ≤ length row → lead row = [] ↔ row !! 0 = Some [].
Proof.
  destruct row as [|[|c t] rest]; simpl; [lia|..]; intros _; split; congruence.
Qed.

Lemma good_iff (row : Row) : good row ↔ 4 ≤ length row ∧ row !! 0 ≠ Some [].
Proof.
  split.
  - intros (c & t & r1 & r2 & r3 & rest & ->). simpl. split; [lia|done].
  - intros [Hlen Hne]. apply lead_good; [done|].
    intros Hl. by apply no_lead_lookup in Hl.
Qed.

Lemma str_le_nil (s : str) : str_le s [] → s = [].
Proof. destruct s; [done|]. unfold str_le, str_compare. simpl. done. Qed.

Lemma casefold_nil (U : UnicodeData) (s : str) :
  casefold_not_empty U → casefold U s = [] → s = [].
Proof.
  intros HU. destruct s as [|c s]; [done|]. unfold casefold.
  change (mbind ?f (c :: s)) with (f c ++ mbind f s).
  intros [H _]%app_eq_nil. revert H. unfold casefold_char, is_ascii.
  destruct (N.ltb_spec c 128) as [_|Hc]; [done|].
  intros H. by apply HU in H.
Qed.

(** In sorted rows, the rows without topic come first. *)
Lemma sorted_empty_topic_first (U : UnicodeData) (rows : list Row) :
  casefold_not_empty U →
  StronglySorted (row_le U) rows →
  Forall (λ row, 4 ≤ length row) rows →
  Exists (λ row, row !! 0 = Some []) rows →
  ∃ row rest, rows = row :: rest ∧ row !! 0 = Some [].
Proof.
  intros HU Hs Hlen Hex. destruct rows as [|row rest]; [by apply Exists_nil in Hex|].
  exists row, rest. split; [done|].
  apply Exists_cons in Hex as [?|Hex]; [done|].
  apply Exists_exists in Hex as (e & Hin & He).
  apply StronglySorted_cons in Hs as [Hrow _].
  pose proof (proj1 (Forall_forall _ _) Hrow e Hin) as Hle.
  apply Forall_cons in Hlen as [Hlen _].
  destruct row as [|topic rest']; [simpl in Hlen; lia|].
  pose proof (row_le_topic U _ _ topic [] Hle eq_refl He) as Ht.
  simpl. f_equal. apply (casefold_nil U); [done|]. by apply str_le_nil.
Qed.

(** C9. Take rows of four fields or more, as the sort lets through.  If the
    topic of one of them is the empty string, the loop of the assembler
    never runs to its end; it ends in an uncaught IndexError at
    [row[0][0]] as soon as it reaches such a row: at once when the row is
    the first, as it is in sorted rows, and in any case when the texts of
    the rows are such as the document takes.  Conversely the loop runs to
    its end only if no topic is empty, and it does so when none is and the
    texts are such as the document takes.  In [main] the rows without topic
    are sorted to the front, and the run ends in IndexError with exit
    status 1 and the files as they were: in none of the errors of
    [parser.error]. *)
Theorem empty_topic_IndexError (U : UnicodeData) (rows : list Row) :
  Forall (λ row, 4 ≤ length row) rows →
  (Exists (λ row, row !! 0 = Some []) rows →
   (∀ st, (assemble U rows st).1 ≠ Ok ()) ∧
   (∀ row rest st, rows = row :: rest → row !! 0 = Some [] →
                   assemble U rows st = (Raise IndexError, enter st)) ∧
   (Forall (λ row, texts_ok U row = true) rows →
    ∀ st, (assemble U rows st).1 = Raise IndexError)) ∧
  ((∀ st, (assemble U rows st).1 = Ok () →
          Forall (λ row, row !! 0 ≠ Some []) rows) ∧
   (Forall (λ row, row !! 0 ≠ Some []) rows →
    Forall (λ row, texts_ok U row = true) rows →
    ∀ st, (assemble U rows st).1 = Ok ())) ∧
  (casefold_not_empty U →
   Exists (λ row, row !! 0 = Some []) rows →
   ∀ csvfile fs,
     isfile fs (docfile_of csvfile) = false →
     status (main U csvfile rows fs) = Raise IndexError ∧
     files (main U csvfile rows fs) = fs ∧
     exit_status (main U csvfile rows fs) = 1%Z).
Proof.
  intros Hlen.
  assert (∀ st, (assemble U rows st).1 = Ok () →
                Forall (λ row, row !! 0 ≠ Some []) rows) as Honly.
  { intros st H. destruct (assemble U rows st) as [r st'] eqn:E.
    simpl in H. subst r. apply assemble_Ok in E as [Hg _].
    eapply Forall_impl; [exact Hg|]. by intros row [_ ?]%good_iff. }
  split_and!.
  - intros Hex. split_and!.
    + intros st H. apply Honly in H.
      apply Exists_exists in Hex as (row & Hin & Hrow).
      by apply (proj1 (Forall_forall _ _) H row Hin).
    + intros row rest st -> Hrow. rewrite assemble_for_each.
      cbn [for_each]. unfold mbind, M_bind.
      rewrite loop_body_no_lead; [done|].
      apply no_lead_lookup; [|done]. by apply Forall_cons in Hlen as [? _].
    + intros Ht st. rewrite assemble_for_each. generalize (enter st).
      clear Honly. induction Hlen as [|row rows Hrow Hlen IH]; intros st'.
      { by apply Exists_nil in Hex. }
      apply Forall_cons in Ht as [Ht Hts].
      cbn [for_each]. unfold mbind, M_bind.
      destruct (decide (lead row = [])) as [Hl|Hl].
      * by rewrite loop_body_no_lead.
      * rewrite loop_body_good.
        -- apply IH; [|done]. apply Exists_cons in Hex as [Hex|?]; [|done].
           apply no_lead_lookup in Hex; done.
        -- by apply lead_good.
        -- by apply texts_ok_writes_ok.
  - done.
  - intros Hne Ht st. rewrite assemble_for_each, for_each_good; [done|].
    apply texts_ok_loop_ok; [|done].
    apply Forall_forall. intros row Hin. apply good_iff. split.
    + by apply (proj1 (Forall_forall _ _) Hlen).
    + by apply (proj1 (Forall_forall _ _) Hne row Hin).
  - intros HU Hex csvfile fs Hfile.
    destruct (sorted_rows_total U rows Hlen) as [out Hout].
    destruct (sorted_rows_spec U rows out Hout) as (Hperm & Hs & _).
    destruct (sorted_empty_topic_first U out HU Hs) as (row & rest & -> & Hrow).
    { by rewrite Hperm. }
    { by rewrite Hperm. }
    unfold exit_status, main. fold (docfile_of csvfile). rewrite Hout, Hfile.
    rewrite assemble_for_each. cbn [for_each]. unfold mbind, M_bind.
    rewrite loop_body_no_lead; [done|].
    apply no_lead_lookup; [|done].
    assert (row ∈ rows) as Hin by (rewrite <- Hperm; by left).
    by apply (proj1 (Forall_forall _ _) Hlen).
Qed.

Lemma empty_topic_IndexError_witness :
  Forall (λ row : Row, 4 ≤ length row) [Zebra; no_topic; apple] ∧
  Exists (λ row : Row, row !! 0 = Some []) [Zebra; no_topic; apple] ∧
  casefold_not_empty ascii_only ∧
  isfile ∅ (docfile_of (lit "index.csv")) = false ∧
  status (main ascii_only (lit "index.csv") [Zebra; no_topic; apple] ∅)
  = Raise IndexError ∧
  files (main ascii_only (lit "index.csv") [Zebra; no_topic; apple] ∅) = ∅ ∧
  exit_status (main ascii_only (lit "index.csv") [Zebra; no_topic; apple] ∅) = 1%Z.
Proof.
  assert (Forall (λ row : Row, 4 ≤ length row) [Zebra; no_topic; apple]) as H.
  { repeat constructor. }
  assert (Exists (λ row : Row, row !! 0 = Some []) [Zebra; no_topic; apple]) as H'.
  { right. by left. }
  assert (casefold_not_empty ascii_only) as HU by by intros c _.
  assert (isfile ∅ (docfile_of (lit "index.csv")) = false) as Hf.
  { unfold isfile. by rewrite lookup_empty. }
  split; [exact H|]. split; [exact H'|]. split; [exact HU|]. split; [exact Hf|].
  exact (proj2 (proj2 (empty_topic_IndexError ascii_only _ H)) HU H'
           (lit "index.csv") ∅ Hf).
Defined.

(** ** Sections and first letters *)

Lemma changes_remove_dups (x : str) (l : list str) :
  StronglySorted str_le (x :: l) →
  x :: changes (Some x) l = remove_dups (x :: l).
Proof.
  revert x. induction l as [|y l IH]; intros x Hs; [done|].
  apply StronglySorted_cons in Hs as [Hx Hs].
  cbn [changes]. destruct (decide (Some x = Some y)) as [[= <-]|Hne].
  - rewrite IH.
    + symmetry. change (remove_dups (x :: x :: l))
        with (if decide (x ∈ x :: l) then remove_dups (x :: l)
              else x :: remove_dups (x :: l)).
      rewrite decide_True; [done|by left].
    + apply StronglySorted_cons. split; [|by apply StronglySorted_cons in Hs as [_ ?]].
      by apply Forall_cons in Hx as [_ ?].
  - rewrite (IH y Hs).
    change (remove_dups (x :: y :: l))
      with (if decide (x ∈ y :: l) then remove_dups (y :: l)
            else x :: remove_dups (y :: l)).
    rewrite decide_False; [done|].
    intros Hin. apply Forall_cons in Hx as [Hxy Hxl].
    apply StronglySorted_cons in Hs as [Hy _].
    apply elem_of_cons in Hin as [->|Hin]; [done|].
    apply Hne. f_equal. apply str_le_antisym; [done|].
    by apply (proj1 (Forall_forall _ _) Hy).
Qed.

Lemma changes_None_remove_dups (l : list str) :
  StronglySorted str_le l → changes None l = remove_dups l.
Proof.
  destruct l as [|x l]; [done|]. intros Hs.
  cbn [changes]. rewrite decide_False by done. by apply changes_remove_dups.
Qed.

Lemma firsts_changes (U : UnicodeData) (prev : option str) (rows : list Row) :
  folded_lead U <$> firsts U prev rows = changes prev (folded_lead U <$> rows).
Proof.
  revert prev. induction rows as [|row rows IH]; intros prev; [done|].
  cbn [firsts fmap list_fmap changes].
  destruct (decide (prev = Some (folded_lead U row))); [apply IH|].
  cbn [fmap list_fmap]. f_equal. apply IH.
Qed.

Lemma sections_by_change_breaks (U : UnicodeData) (prev : option str)
    (rows : list Row) :
  breaks (sections_by_change U prev rows)
  = replicate
      (length (filter (λ row, str_gt (folded_lead U row) (lit "`") = true)
                 (firsts U prev rows)))
      ODD_PAGE.
Proof.
  revert prev. induction rows as [|row rows IH]; intros prev; [done|].
  cbn [sections_by_change firsts].
  destruct (decide (prev = Some (folded_lead U row))).
  - apply IH.
  - rewrite filter_cons.
    destruct (decide (str_gt (folded_lead U row) (lit "`") = true)) as [E|E].
    + rewrite E. cbn [length replicate]. change (?a = ?b :: ?c) with (a = [b] ++ c).
      rewrite <- IH. reflexivity.
    + apply not_true_is_false in E. rewrite E. apply IH.
Qed.

Lemma sections_by_change_headings (U : UnicodeData) (prev : option str)
    (rows : list Row) :
  headings (sections_by_change U prev rows)
  = heading_for U
      <$> filter (λ row, str_gt (folded_lead U row) (lit "`") = true)
            (firsts U prev rows).
Proof.
  revert prev. induction rows as [|row rows IH]; intros prev; [done|].
  cbn [sections_by_change firsts].
  destruct (decide (prev = Some (folded_lead U row))).
  - apply IH.
  - rewrite filter_cons.
    destruct (decide (str_gt (folded_lead U row) (lit "`") = true)) as [E|E].
    + rewrite E. cbn [fmap list_fmap].
      change (?a = ?b :: ?c) with (a = [b] ++ c). rewrite <- IH. reflexivity.
    + apply not_true_is_false in E. rewrite E. apply IH.
Qed.

Lemma length_filter_fmap {A B} (f : A → B) (P : B → Prop)
    `{∀ y, Decision (P y)} (l : list A) :
  length (filter (λ x, P (f x)) l) = length (filter P (f <$> l)).
Proof.
  induction l as [|x l IH]; [done|].
  cbn [fmap list_fmap]. rewrite !filter_cons.
  destruct (decide (P (f x))); simpl; by rewrite IH.
Qed.

Lemma ascii_lead_plain (U : UnicodeData) (row : Row) (c : N) :
  lead row = [c] → (c < 128)%N → plain_lead U row.
Proof.
  intros Hlead Hc. exists (ascii_lower c).
  unfold folded_lead, casefold, lower. rewrite Hlead.
  change (mbind ?f [?y]) with (f y ++ []). rewrite !app_nil_r.
  unfold casefold_char, lower_char, is_ascii.
  apply N.ltb_lt in Hc. by rewrite Hc.
Qed.

Lemma sorted_folded_lead (U : UnicodeData) (rows : list Row) :
  StronglySorted (row_le U) rows →
  Forall good rows → Forall (plain_lead U) rows →
  StronglySorted (λ a b, str_le (folded_lead U a) (folded_lead U b)) rows.
Proof.
  induction 1 as [|a rows Hs IH Ha]; intros Hg Hl; [constructor|].
  apply Forall_cons in Hg as [Hga Hg]. apply Forall_cons in Hl as [Hla Hl].
  constructor; [by apply IH|].
  apply Forall_forall. intros b Hb.
  pose proof (proj1 (Forall_forall _ _) Ha b Hb) as Hab.
  pose proof (proj1 (Forall_forall _ _) Hg b Hb) as Hgb.
  pose proof (proj1 (Forall_forall _ _) Hl b Hb) as Hlb.
  destruct Hga as (ca & ta & ? & ? & ? & ? & ->).
  destruct Hgb as (cb & tb & ? & ? & ? & ? & ->).
  pose proof (row_le_topic U _ _ (ca :: ta) (cb :: tb) Hab eq_refl eq_refl) as Hle.
  destruct Hla as (xa & Hxa & _). destruct Hlb as (xb & Hxb & _).
  rewrite Hxa, Hxb. unfold folded_lead, casefold in *. simpl lead in *.
  change (mbind ?f [?y]) with (f y ++ []) in Hxa, Hxb.
  rewrite app_nil_r in Hxa, Hxb.
  change (mbind ?f (ca :: ta)) with (f ca ++ mbind f ta) in Hle.
  change (mbind ?f (cb :: tb)) with (f cb ++ mbind f tb) in Hle.
  cbv beta in Hle. rewrite Hxa, Hxb in Hle.
  apply str_le_head in Hle. by apply str_le_single.
Qed.

Lemma plain_lead_good (U : UnicodeData) (row : Row) :
  4 ≤ length row → plain_lead U row → good row.
Proof.
  intros Hlen (x & Hx & _). apply lead_good; [done|].
  intros Hl. unfold folded_lead in Hx. by rewrite Hl in Hx.
Qed.

(** The loop and the rule give the same blocks.  Either no section is open
    yet, and the row before, if any, was not above the backtick; or the
    current letter is the folded first character of the row before. *)
Lemma blocks_by_change (U : UnicodeData) (cur : str) (prev : option str)
    (rows : list Row) :
  StronglySorted (λ a b, str_le (folded_lead U a) (folded_lead U b)) rows →
  Forall (plain_lead U) rows →
  (cur = lit "`" ∧
   (prev = None ∨ ∃ l, prev = Some l ∧ str_gt l (lit "`") = false))
  ∨ (prev = Some cur ∧ str_gt cur (lit "`") = true ∧
     Forall (λ row, str_le cur (folded_lead U row)) rows) →
  blocks U cur rows = sections_by_change U prev rows.
Proof.
  intros Hs. revert cur prev.
  induction Hs as [|row rows Hs IH Hrow]; intros cur prev Hl Hcur; [done|].
  apply Forall_cons in Hl as [(x & Hf & Hlow) Hls].
  cbn [blocks sections_by_change]. unfold opens. rewrite Hlow, Hf.
  assert (Forall (λ r, str_le [x] (folded_lead U r)) rows) as Hx.
  { eapply Forall_impl; [exact Hrow|]. simpl. intros b. by rewrite Hf. }
  destruct Hcur as [[-> Hprev]|(-> & Habove & Hcur)].
  - destruct (str_gt [x] (lit "`")) eqn:E.
    + rewrite decide_False.
      2: { destruct Hprev as [->|(l & -> & Hl)]; [done|]. intros [= ->]. congruence. }
      cbn [app]. do 3 f_equal. apply IH; [done|]. right. by split_and!.
    + assert ((if decide (prev = Some [x]) then [] else @nil Block) = []) as ->
        by by destruct (decide _).
      cbn [app]. f_equal. apply IH; [done|]. left. split; [done|].
      right. by exists [x].
  - apply Forall_cons in Hcur as [Hcx Hcur]. rewrite Hf in Hcx.
    destruct (decide (Some cur = Some [x])) as [[= ->]|Hne].
    + assert (str_gt [x] [x] = false) as -> by by apply str_gt_le.
      cbn [app]. f_equal. apply IH; [done|]. right. by split_and!.
    + assert (str_compare cur [x] = Lt) as Hlt.
      { unfold str_le in Hcx. destruct (str_compare cur [x]) eqn:E; try done.
        apply str_compare_eq in E. congruence. }
      assert (str_gt [x] cur = true) as -> by by apply str_gt_lt.
      assert (str_gt [x] (lit "`") = true) as Hab.
      { apply str_gt_lt. apply str_gt_lt in Habove.
        by apply str_compare_trans with cur. }
      rewrite Hab. cbn [app]. do 3 f_equal. apply IH; [done|].
      right. by split_and!.
Qed.

(** Rows that are not above the backtick get their entries and nothing
    else. *)
Lemma sections_by_change_under (U : UnicodeData) (prev : option str)
    (pre : list Row) (row : Row) (post : list Row) :
  Forall (λ r, str_gt (folded_lead U r) (lit "`") = false) (pre ++ [row]) →
  sections_by_change U prev (pre ++ row :: post)
  = (Para ∘ entry <$> pre ++ [row])
    ++ sections_by_change U (Some (folded_lead U row)) post.
Proof.
  revert prev. induction pre as [|a pre IH]; intros prev Hall.
  - apply Forall_cons in Hall as [Hrow _].
    cbn [app sections_by_change]. rewrite Hrow. by destruct (decide _).
  - apply Forall_cons in Hall as [Ha Hall].
    cbn [app sections_by_change fmap list_fmap]. rewrite Ha, (IH _ Hall).
    by destruct (decide _).
Qed.

(** C2, as the code has it.  Take sorted rows, with first characters that
    case-fold and lower-case to one and the same single character, as
    every ASCII character does.  The loop runs to its end when the texts of
    the rows are such as the document takes.  Whenever it runs to its end,
    the body after the first heading "#" is what the rule of the
    specification gives when it is kept to the characters above the
    backtick: a section break and a heading exactly where the folded first
    character differs from that of the row before and is above the
    backtick.  There is one section break per distinct folded first
    character above the backtick, the headings being those of the first
    rows of these characters, in the order in which they come.  A row that
    is not above the backtick, and every row before it, is written
    straight under "#".  For first letters a, a, b, b, b, c there are three
    sections, and two for an index that begins 1, 2, a, a, b. *)
Theorem one_section_per_letter (U : UnicodeData) (csvin rows : list Row) :
  sorted_rows U csvin = Ok rows →
  Forall (plain_lead U) rows →
  (Forall (λ row, texts_ok U row = true) rows →
   (assemble U rows st0).1 = Ok ()) ∧
  (∀ st,
   assemble U rows st0 = (Ok (), st) →
   body (document st) = Heading (lit "#") 0 :: sections_by_change U None rows ∧
   section_count (body (document st))
   = length (filter (λ l, str_gt l (lit "`") = true)
               (remove_dups (folded_lead U <$> rows))) ∧
   headings (body (document st))
   = lit "#" :: (heading_for U
                   <$> filter (λ row, str_gt (folded_lead U row) (lit "`") = true)
                         (firsts U None rows)) ∧
   folded_lead U <$> firsts U None rows = remove_dups (folded_lead U <$> rows) ∧
   (∀ pre row post,
      rows = pre ++ row :: post →
      str_gt (folded_lead U row) (lit "`") = false →
      body (document st)
      = Heading (lit "#") 0 :: (Para ∘ entry <$> pre ++ [row])
        ++ sections_by_change U (Some (folded_lead U row)) post)) ∧
  (∀ row c, lead row = [c] → (c < 128)%N → plain_lead U row) ∧
  sorted_rows U aabbbc = Ok aabbbc ∧
  folded_lead U <$> aabbbc
  = [lit "a"; lit "a"; lit "b"; lit "b"; lit "b"; lit "c"] ∧
  (assemble U aabbbc st0).1 = Ok () ∧
  section_count (body (document (assemble U aabbbc st0).2)) = 3 ∧
  headings (body (document (assemble U aabbbc st0).2))
  = [lit "#"; lit "Aa"; lit "Bb"; lit "Cc"] ∧
  sorted_rows U mixed = Ok mixed ∧
  (assemble U mixed st0).1 = Ok () ∧
  section_count (body (document (assemble U mixed st0).2)) = 2 ∧
  headings (body (document (assemble U mixed st0).2))
  = [lit "#"; lit "Aa"; lit "Bb"].
Proof.
  intros Hsort Hl.
  destruct (sorted_rows_spec U _ _ Hsort) as (_ & Hs & Hkeys & _).
  assert (Forall good rows) as Hg.
  { apply Forall_forall. intros row Hrow.
    pose proof (proj1 (Forall_forall _ _) Hkeys row Hrow) as [key0 Hkey].
    apply (plain_lead_good U); [by apply sort_key_length in Hkey|].
    by apply (proj1 (Forall_forall _ _) Hl). }
  split; [|split; [|split; [apply ascii_lead_plain|by vm_compute]]].
  { intros Ht. rewrite assemble_for_each, for_each_good; [done|].
    by apply texts_ok_loop_ok. }
  intros st Hrun. apply assemble_Ok in Hrun as [_ Hbody].
  change (body (document st0)) with (@nil Block) in Hbody. simpl in Hbody.
  pose proof (sorted_folded_lead U rows Hs Hg Hl) as Hfs.
  assert (blocks U (lit "`") rows = sections_by_change U None rows) as Hb.
  { apply (blocks_by_change U (lit "`") None rows Hfs Hl). left. by split; [|left]. }
  rewrite Hb in Hbody.
  assert (folded_lead U <$> firsts U None rows
          = remove_dups (folded_lead U <$> rows)) as Hch.
  { rewrite firsts_changes. apply changes_None_remove_dups.
    by apply (StronglySorted_fmap (folded_lead U)
                (λ a b, str_le (folded_lead U a) (folded_lead U b)) str_le). }
  split_and!.
  - done.
  - rewrite Hbody. unfold section_count.
    change (breaks (Heading (lit "#") 0 :: ?b)) with (breaks b).
    rewrite sections_by_change_breaks, length_replicate, <- Hch.
    exact (length_filter_fmap (folded_lead U)
             (λ l : str, str_gt l (lit "`") = true) _).
  - rewrite Hbody.
    change (headings (Heading (lit "#") 0 :: ?b)) with (lit "#" :: headings b).
    by rewrite sections_by_change_headings.
  - done.
  - intros pre row post -> Hrow. rewrite Hbody. f_equal.
    apply sections_by_change_under.
    apply Forall_app. split; [|by constructor].
    apply StronglySorted_app in Hfs as (Hpre & _ & _).
    apply Forall_forall. intros a Ha. apply str_gt_le.
    trans (folded_lead U row); [|by apply str_gt_le].
    apply Hpre; [done|by left].
Qed.

Lemma one_section_per_letter_witness :
  sorted_rows ascii_only mixed = Ok mixed ∧
  Forall (plain_lead ascii_only) mixed ∧
  assemble ascii_only mixed st0 = (Ok (), (assemble ascii_only mixed st0).2) ∧
  body (document (assemble ascii_only mixed st0).2)
  = Heading (lit "#") 0 :: sections_by_change ascii_only None mixed ∧
  section_count (body (document (assemble ascii_only mixed st0).2))
  = length (filter (λ l, str_gt l (lit "`") = true)
              (remove_dups (folded_lead ascii_only <$> mixed))).
Proof.
  assert (sorted_rows ascii_only mixed = Ok mixed) as H by by vm_compute.
  assert (Forall (plain_lead ascii_only) mixed) as H'.
  { repeat constructor; eexists; split; reflexivity. }
  assert (assemble ascii_only mixed st0
          = (Ok (), (assemble ascii_only mixed st0).2)) as H'' by by vm_compute.
  split; [exact H|]. split; [exact H'|]. split; [exact H''|].
  pose proof (proj1 (proj2 (one_section_per_letter ascii_only mixed mixed H H'))
                _ H'') as (H1 & H2 & _).
  split; [exact H1|exact H2].
Defined.

(** Against C2: the claim for all sorted rows.  The two rows of [digits]
    are sorted and have two distinct first characters, and the loop opens
    no section for them. *)
Lemma digits_open_no_section :
  ¬ (∀ (U : UnicodeData) (csvin rows : list Row) (st : State),
       sorted_rows U csvin = Ok rows →
       assemble U rows st0 = (Ok (), st) →
       section_count (body (document st))
       = length (remove_dups (folded_lead U <$> rows))).
Proof.
  intros H.
  specialize (H ascii_only digits digits (assemble ascii_only digits st0).2).
  assert (section_count (body (document (assemble ascii_only digits st0).2)) = 0)
    as H0 by by vm_compute.
  assert (length (remove_dups (folded_lead ascii_only <$> digits)) = 2)
    as H2 by by vm_compute.
  rewrite H0, H2 in H. discriminate H; by vm_compute.
Qed.

(** ** A run of [main] as a whole *)

Lemma foldl_step_stdout (U : UnicodeData) (rows : list Row) (st : State) :
  stdout (foldl (step U) st rows)
  = stdout st ++ (progress <$> headings (blocks U (currltr st) rows)).
Proof.
  revert st. induction rows as [|row rows IH]; intros st; simpl.
  { by rewrite app_nil_r. }
  rewrite IH. unfold step.
  destruct (opens U (currltr st) row); simpl; [|done].
  by rewrite <- app_assoc.
Qed.

Lemma blocks_paras (U : UnicodeData) (cur : str) (rows : list Row) :
  paras (blocks U cur rows) = entry <$> rows.
Proof.
  revert cur. induction rows as [|row rows IH]; intros cur; [done|].
  simpl. destruct (opens U cur row); simpl; f_equal; apply IH.
Qed.


(** What a run that ends normally has done. *)
Lemma main_Ok (U : UnicodeData) (csvfile : str) (csvin : list Row) (fs : Files) :
  status (main U csvfile csvin fs) = Ok () →
  ∃ out st,
    sorted_rows U csvin = Ok out ∧
    Forall good out ∧
    fs !! docfile_of csvfile = None ∧
    assemble U out st0 = (Ok (), st) ∧
    main U csvfile csvin fs
    = {| status := Ok ();
         printed := stdout st ++ [lit "Document created:  " ++ docfile_of csvfile];
         files := <[docfile_of csvfile := Docx (document st)]> fs |} ∧
    body (document st) = Heading (lit "#") 0 :: blocks U (lit "`") out ∧
    stdout st = progress <$> headings (body (document st)).
Proof.
  unfold main. fold (docfile_of csvfile). unfold isfile.
  destruct (sorted_rows U csvin) as [out|e] eqn:Hs; [|done].
  destruct (assemble U out st0) as [[[]|e] st] eqn:Ha.
  2: { by destruct (fs !! docfile_of csvfile) as [[]|]. }
  destruct (fs !! docfile_of csvfile) as [[]|] eqn:Hf; try done.
  intros _. exists out, st. split_and!; try done.
  - by apply assemble_Ok in Ha as [? _].
  - by apply assemble_Ok in Ha as [_ ->].
  - rewrite assemble_for_each in Ha. apply for_each_Ok in Ha as [_ ->].
    rewrite foldl_step_stdout, foldl_step_body. reflexivity.
Qed.


Lemma main_total (U : UnicodeData) (csvfile : str) (csvin : list Row) (fs : Files) :
  Forall good csvin → Forall (λ row, texts_ok U row = true) csvin →
  fs !! docfile_of csvfile = None →
  status (main U csvfile csvin fs) = Ok ().
Proof.
  intros Hg Ht Hf.
  destruct (sorted_rows_total U csvin) as [out Hout].
  { eapply Forall_impl; [exact Hg|]. by intros row [? _]%good_lead. }
  destruct (sorted_rows_spec U _ _ Hout) as (Hperm & _).
  unfold main. fold (docfile_of csvfile). unfold isfile. rewrite Hout, Hf.
  rewrite assemble_for_each, for_each_good; [done|].
  apply texts_ok_loop_ok; by rewrite Hperm.
Qed.


(** The example run, for the witnesses. *)
Lemma example_run_Ok :
  status (main ascii_only (lit "index.csv") [Zebra; apple] ∅) = Ok ().
Proof.
  apply main_total; [| |apply lookup_empty].
  - repeat constructor; by eexists _, _, _, _, _, _.
  - repeat constructor.
Qed.

(** ** What [main] needs to end normally *)




(** X3. What a run that ends normally prints: one line "Processing:  " and
    the heading for every heading of the saved document, "#" first, in the
    order of the document, and then the line that names the document. *)
Theorem progress_lines (U : UnicodeData) (csvfile : str)
    (csvin : list Row) (fs : Files) :
  status (main U csvfile csvin fs) = Ok () →
  ∃ d, files (main U csvfile csvin fs) !! docfile_of csvfile = Some (Docx d) ∧
       printed (main U csvfile csvin fs)
       = (progress <$> headings (body d))
         ++ [lit "Document created:  " ++ docfile_of csvfile] ∧
       head (headings (body d)) = Some (lit "#").
Proof.
  intros (out & st & _ & _ & _ & _ & -> & Hb & Hout)%main_Ok.
  exists (document st). cbn [files printed]. rewrite lookup_insert_eq, Hout.
  split_and!; try done. by rewrite Hb.
Qed.

Lemma progress_lines_witness :
  status (main ascii_only (lit "index.csv") [Zebra; apple] ∅) = Ok () ∧
  ∃ d, files (main ascii_only (lit "index.csv") [Zebra; apple] ∅)
         !! docfile_of (lit "index.csv") = Some (Docx d) ∧
       printed (main ascii_only (lit "index.csv") [Zebra; apple] ∅)
       = (progress <$> headings (body d))
         ++ [lit "Document created:  " ++ docfile_of (lit "index.csv")] ∧
       head (headings (body d)) = Some (lit "#").
Proof.
  split; [exact example_run_Ok|].
  exact (progress_lines ascii_only (lit "index.csv") [Zebra; apple] ∅ example_run_Ok).
Defined.

Lemma entry_text (topic book page comment : str) (rest : Row) :
  paragraph_text (entry (topic :: book :: page :: comment :: rest))
  = topic ++ lit " [b" ++ book ++ lit "/p" ++ page ++ lit "] " ++ comment.
Proof.
  unfold paragraph_text, entry, run_shown. cbn [runs].
  change (mbind ?f [?a; ?b; ?c]) with (f a ++ f b ++ f c ++ []).
  cbn [run_text r_children new_run].
  change (mbind _ (filter _ [])) with (@nil N).
  rewrite !app_nil_r. by rewrite <- !app_assoc.
Qed.

(** X4. The saved document has one paragraph per row, in the order of the
    sort, and each reads: the topic, " [b", the book number, "/p", the page
    number, "] ", the comment. *)
Theorem one_entry_per_row (U : UnicodeData) (csvfile : str)
    (csvin : list Row) (fs : Files) :
  status (main U csvfile csvin fs) = Ok () →
  ∃ out d,
    sorted_rows U csvin = Ok out ∧
    files (main U csvfile csvin fs) !! docfile_of csvfile = Some (Docx d) ∧
    paras (body d) = entry <$> out ∧
    length (paras (body d)) = length csvin ∧
    Forall2 (λ row p,
               ∃ topic book page comment rest,
                 row = topic :: book :: page :: comment :: rest ∧
                 paragraph_text p
                 = topic ++ lit " [b" ++ book ++ lit "/p" ++ page ++ lit "] "
                   ++ comment)
      out (paras (body d)).
Proof.
  intros (out & st & Hs & Hg & _ & _ & -> & Hb & _)%main_Ok.
  exists out, (document st). cbn [files]. rewrite lookup_insert_eq.
  assert (paras (body (document st)) = entry <$> out) as Hp.
  { rewrite Hb. apply (blocks_paras U (lit "`") out). }
  split_and!; try done.
  - rewrite Hp, length_fmap.
    destruct (sorted_rows_spec U _ _ Hs) as (Hperm & _). by rewrite Hperm.
  - rewrite Hp. apply Forall2_fmap_r, Forall_Forall2_diag.
    eapply Forall_impl; [exact Hg|].
    intros row (c & t & r1 & r2 & r3 & rest & ->).
    exists (c :: t), r1, r2, r3, rest. split; [done|]. apply entry_text.
Qed.

Lemma one_entry_per_row_witness :
  status (main ascii_only (lit "index.csv") [Zebra; apple] ∅) = Ok () ∧
  ∃ out d,
    sorted_rows ascii_only [Zebra; apple] = Ok out ∧
    files (main ascii_only (lit "index.csv") [Zebra; apple] ∅)
      !! docfile_of (lit "index.csv") = Some (Docx d) ∧
    paras (body d) = entry <$> out ∧
    length (paras (body d)) = length [Zebra; apple] ∧
    Forall2 (λ row p,
               ∃ topic book page comment rest,
                 row = topic :: book :: page :: comment :: rest ∧
                 paragraph_text p
                 = topic ++ lit " [b" ++ book ++ lit "/p" ++ page ++ lit "] "
                   ++ comment)
      out (paras (body d)).
Proof.
  split; [exact example_run_Ok|].
  exact (one_entry_per_row ascii_only (lit "index.csv") [Zebra; apple] ∅
           example_run_Ok).
Defined.



(** ** Fields beyond the fourth *)

Lemma insort_fmap {A B} (g : A → B) (lt : A → A → bool) (lt' : B → B → bool)
    (x : A) (l : list A) :
  (∀ a b, lt' (g a) (g b) = lt a b) →
  insort lt' (g x) (g <$> l) = g <$> insort lt x l.
Proof.
  intros Hg. induction l as [|y l IH]; [done|].
  cbn [fmap list_fmap insort]. rewrite Hg.
  destruct (lt x y); [done|]. cbn [fmap list_fmap]. f_equal. exact IH.
Qed.

Lemma list_sort_fmap {A B} (g : A → B) (lt : A → A → bool) (lt' : B → B → bool)
    (l : list A) :
  (∀ a b, lt' (g a) (g b) = lt a b) →
  list_sort lt' (g <$> l) = g <$> list_sort lt l.
Proof.
  intros Hg. unfold list_sort.
  change (@nil B) with (g <$> @nil A). generalize (@nil A).
  induction l as [|x l IH]; intros acc; [done|].
  cbn [fmap list_fmap foldl].
  rewrite <- IH. f_equal. by apply insort_fmap.
Qed.

Lemma sort_key_take (U : UnicodeData) (row : Row) :
  sort_key U (take 4 row) = sort_key U row.
Proof. by destruct row as [|? [|? [|? [|? ?]]]]. Qed.

Lemma loop_body_take (U : UnicodeData) (row : Row) :
  loop_body U (take 4 row) = loop_body U row.
Proof. by destruct row as [|? [|? [|? [|? ?]]]]. Qed.

Lemma mapM_sort_key_take (U : UnicodeData) (rows : list Row) :
  mapM (sort_key U) (take 4 <$> rows) = mapM (sort_key U) rows.
Proof.
  induction rows as [|row rows IH]; [done|].
  cbn [fmap list_fmap mapM]. by rewrite sort_key_take, IH.
Qed.

Lemma zip_fmap_take (ks : list Key) (rows : list Row) :
  zip ks (take 4 <$> rows) = prod_map id (take 4) <$> zip ks rows.
Proof.
  revert ks. induction rows as [|row rows IH]; intros [|k ks]; try done.
  cbn [fmap list_fmap zip_with]. f_equal. apply IH.
Qed.

Lemma sorted_rows_take (U : UnicodeData) (rows : list Row) :
  sorted_rows U (take 4 <$> rows)
  = match sorted_rows U rows with
    | Ok out => Ok (take 4 <$> out)
    | Raise e => Raise e
    end.
Proof.
  unfold sorted_rows, sorted. rewrite mapM_sort_key_take.
  destruct (mapM (sort_key U) rows) as [ks|e]; [|done].
  unfold mbind, result_bind, mret, result_ret. f_equal.
  rewrite zip_fmap_take.
  rewrite (list_sort_fmap (prod_map id (take 4))
             (λ p q : Key * Row, tuple_lt p.1 q.1)) by done.
  rewrite <- !list_fmap_compose. done.
Qed.

Lemma for_each_take (U : UnicodeData) (rows : list Row) (st : State) :
  for_each (loop_body U) (take 4 <$> rows) st = for_each (loop_body U) rows st.
Proof.
  revert st. induction rows as [|row rows IH]; intros st; [done|].
  cbn [fmap list_fmap for_each]. unfold mbind, M_bind.
  rewrite loop_body_take.
  destruct (loop_body U row st) as [[[]|e] st1]; [apply IH|done].
Qed.

(** X6. Fields beyond the fourth play no part: a run on the rows and a run
    on the rows cut to their first four fields end the same way, print the
    same lines and leave the same files, the same document among them. *)
Theorem extra_fields_ignored (U : UnicodeData) (csvfile : str)
    (csvin : list Row) (fs : Files) :
  main U csvfile (take 4 <$> csvin) fs = main U csvfile csvin fs.
Proof.
  unfold main. rewrite sorted_rows_take.
  destruct (sorted_rows U csvin) as [out|e]; [|done].
  destruct (isfile fs _); [done|].
  by rewrite !assemble_for_each, for_each_take.
Qed.

(** ** The order of first characters *)

Lemma tuple_lt_topic (a0 b0 a1 a2 a3 b1 b2 b3 : str) :
  str_compare a0 b0 = Lt → tuple_lt (a0, a1, a2, a3) (b0, b1, b2, b3) = true.
Proof. intros H. unfold tuple_lt, str_eq, str_lt. by rewrite H. Qed.

Lemma casefold_char_ascii (U : UnicodeData) (c : N) :
  (c < 128)%N → casefold_char U c = [ascii_lower c].
Proof.
  intros Hc. unfold casefold_char, is_ascii. apply N.ltb_lt in Hc. by rewrite Hc.
Qed.

Lemma str_compare_head_lt (x y : N) (l l' : str) :
  (x < y)%N → str_compare (x :: l) (y :: l') = Lt.
Proof.
  intros H. unfold str_compare. cbn [list_compare].
  by rewrite (proj2 (N.compare_lt_iff x y) H).
Qed.

(** X7. The order of the sort by first character, as the comment at the
    head of [main] has it.  Between two rows whose topics begin with ASCII
    characters: a row that begins with anything that is not a letter and
    stands before the small letters (control characters, space, digits,
    punctuation up to the backtick) has the smaller key than a row that
    begins with a letter of either case; and, the known issue, a row that
    begins with one of the braces, the bar or the tilde has the greater
    key. *)
Theorem first_characters_order (U : UnicodeData) (a b : Row) (ka kb : Key)
    (ca cb : N) (ta tb : str) :
  sort_key U a = Ok ka → sort_key U b = Ok kb →
  a !! 0 = Some (ca :: ta) → b !! 0 = Some (cb :: tb) →
  ascii_letter cb →
  ((ca < 65)%N ∨ (91 ≤ ca ≤ 96)%N → tuple_lt ka kb = true) ∧
  ((123 ≤ ca ≤ 126)%N → tuple_lt kb ka = true).
Proof.
  intros Ha Hb Hta Htb Hcb.
  destruct a as [|a0 [|a1 [|a2 [|a3 a]]]]; try done.
  destruct b as [|b0 [|b1 [|b2 [|b3 b]]]]; try done.
  simpl in Hta, Htb. injection Hta as ->. injection Htb as ->.
  change (Ok (casefold U (ca :: ta), a1, a2, casefold U a3) = Ok ka) in Ha.
  change (Ok (casefold U (cb :: tb), b1, b2, casefold U b3) = Ok kb) in Hb.
  injection Ha as <-. injection Hb as <-.
  assert (cb < 128)%N as Hcb' by (unfold ascii_letter in Hcb; lia).
  assert (97 ≤ ascii_lower cb ≤ 122)%N as Hlb.
  { unfold ascii_lower, ascii_letter in *.
    destruct (N.leb_spec 65 cb), (N.leb_spec cb 90); simpl; lia. }
  split; intros Hca.
  - apply tuple_lt_topic. rewrite !casefold_char_ascii by lia. cbn [app].
    apply str_compare_head_lt.
    unfold ascii_lower at 1.
    destruct (N.leb_spec 65 ca), (N.leb_spec ca 90); simpl; lia.
  - apply tuple_lt_topic. rewrite !casefold_char_ascii by lia. cbn [app].
    apply str_compare_head_lt.
    unfold ascii_lower at 2.
    destruct (N.leb_spec 65 ca), (N.leb_spec ca 90); simpl; lia.
Qed.

Lemma first_characters_order_witness :
  sort_key ascii_only [lit "2nd"; lit "1"; lit "2"; lit ""]
  = Ok (lit "2nd", lit "1", lit "2", lit "") ∧
  sort_key ascii_only Zebra = Ok (lit "zebra", lit "1", lit "5", lit "desc1") ∧
  ascii_letter 90 ∧
  ((50 < 65)%N ∨ (91 ≤ 50 ≤ 96)%N →
   tuple_lt (lit "2nd", lit "1", lit "2", lit "")
     (lit "zebra", lit "1", lit "5", lit "desc1") = true).
Proof.
  assert (ascii_letter 90) as H by (left; lia).
  split; [reflexivity|]. split; [reflexivity|]. split; [exact H|].
  exact (proj1 (first_characters_order ascii_only
                  [lit "2nd"; lit "1"; lit "2"; lit ""] Zebra _ _ 50 90
                  (lit "nd") (lit "ebra") eq_refl eq_refl eq_refl eq_refl H)).
Defined.

(** ** The checks of the entry point *)

(** X8. The checks of the script.  When nothing has the name of the CSV
    file, or a directory has, the script ends in [parser.error] with exit
    status 2, before [main], and prints nothing; so it does when the file
    is empty.  Otherwise the script is [main].  So the script ends normally
    exactly when the CSV file is a file, is not empty, and [main] ends
    normally.  And when it ends normally the target is not the CSV file
    itself: the input is never written over. *)
Theorem script_checks (U : UnicodeData) (csvfile : str)
    (csvin : list Row) (fs : Files) :
  (status (script U csvfile csvin fs) = Ok () ↔
   (∃ f, fs !! csvfile = Some f ∧ f ≠ Directory ∧ empty_file f = false) ∧
   status (main U csvfile csvin fs) = Ok ()) ∧
  (fs !! csvfile = None →
   script U csvfile csvin fs
   = {| status := Raise (SystemExit 2 (lit "CSV file does not exist."));
        printed := []; files := fs |}) ∧
  (fs !! csvfile = Some Directory →
   script U csvfile csvin fs
   = {| status := Raise (SystemExit 2 (lit "CSV file does not exist."));
        printed := []; files := fs |}) ∧
  (∀ f, fs !! csvfile = Some f → empty_file f = true →
        script U csvfile csvin fs
        = {| status := Raise (SystemExit 2 (lit "CSV file is empty."));
             printed := []; files := fs |}) ∧
  (∀ f, fs !! csvfile = Some f → f ≠ Directory → empty_file f = false →
        script U csvfile csvin fs = main U csvfile csvin fs) ∧
  (status (script U csvfile csvin fs) = Ok () → docfile_of csvfile ≠ csvfile).
Proof.
  assert (status (script U csvfile csvin fs) = Ok () ↔
          (∃ f, fs !! csvfile = Some f ∧ f ≠ Directory ∧ empty_file f = false) ∧
          status (main U csvfile csvin fs) = Ok ()) as Hiff.
  { unfold script. destruct (fs !! csvfile) as [f|] eqn:Hf.
    - destruct f as [d|content|].
      + split; [|by intros [_ ?]]. intros H. split; [|done]. by eexists.
      + destruct (empty_file (Other content)) eqn:He.
        * split; [done|]. intros [(f' & [= <-] & _ & ?) _]. congruence.
        * split; [|by intros [_ ?]]. intros H. split; [|done]. by eexists.
      + split; [done|]. by intros [(f' & [= <-] & ? & _) _].
    - split; [done|]. by intros [(f' & ? & _) _]. }
  split_and!; try done.
  - unfold script. by intros ->.
  - unfold script. by intros ->.
  - unfold script. intros f -> He. destruct f; try done. by rewrite He.
  - unfold script. intros f -> Hd He. destruct f; try done. by rewrite He.
  - intros [(f & Hf & _) E]%Hiff Heq.
    destruct (main_Ok U csvfile csvin fs E) as (_ & _ & _ & _ & Hd & _).
    rewrite Heq in Hd. congruence.
Qed.

(** ** What the loop leaves alone *)

Lemma foldl_step_frame (U : UnicodeData) (rows : list Row) (st : State) :
  with_body (λ _, []) (document (foldl (step U) st rows))
  = with_body (λ _, []) (document st).
Proof.
  revert st. induction rows as [|row rows IH]; intros st; [done|].
  simpl. rewrite IH. unfold step. by destruct (opens U (currltr st) row).
Qed.

(** X9. The loop writes to the body only.  In the saved document the page
    setup, the footer and the two styles are as they were configured before
    the first row: margins of 0.75 inch on the four sides, two columns, and
    in the footer the four runs of the page numbers. *)
Theorem configuration_saved (U : UnicodeData) (csvfile : str)
    (csvin : list Row) (fs : Files) :
  status (main U csvfile csvin fs) = Ok () →
  ∃ d, files (main U csvfile csvin fs) !! docfile_of csvfile = Some (Docx d) ∧
       page d = page (configure Document_new) ∧
       footer d = footer (configure Document_new) ∧
       style_Title d = style_Title (configure Document_new) ∧
       style_Normal d = style_Normal (configure Document_new) ∧
       page d = {| top_margin := Some 685800%Z; bottom_margin := Some 685800%Z;
                   left_margin := Some 685800%Z; right_margin := Some 685800%Z;
                   cols_num := Some "2"%string |} ∧
       runs (footer d)
       = [ literal_run (lit "Page "); field_run (lit "PAGE");
           literal_run (lit " of "); field_run (lit "NUMPAGES") ].
Proof.
  intros (out & st & _ & _ & _ & Ha & -> & _)%main_Ok.
  exists (document st). cbn [files]. rewrite lookup_insert_eq.
  rewrite assemble_for_each in Ha. apply for_each_Ok in Ha as [_ ->].
  pose proof (foldl_step_frame U out (enter st0)) as H.
  destruct (document (foldl (step U) (enter st0) out)) as [pg ft sT sN b].
  injection H as -> -> -> ->. by split_and!.
Qed.

Lemma configuration_saved_witness :
  status (main ascii_only (lit "index.csv") [Zebra; apple] ∅) = Ok () ∧
  ∃ d, files (main ascii_only (lit "index.csv") [Zebra; apple] ∅)
         !! docfile_of (lit "index.csv") = Some (Docx d) ∧
       page d = page (configure Document_new) ∧
       footer d = footer (configure Document_new) ∧
       style_Title d = style_Title (configure Document_new) ∧
       style_Normal d = style_Normal (configure Document_new) ∧
       page d = {| top_margin := Some 685800%Z; bottom_margin := Some 685800%Z;
                   left_margin := Some 685800%Z; right_margin := Some 685800%Z;
                   cols_num := Some "2"%string |} ∧
       runs (footer d)
       = [ literal_run (lit "Page "); field_run (lit "PAGE");
           literal_run (lit " of "); field_run (lit "NUMPAGES") ].
Proof.
  split; [exact example_run_Ok|].
  exact (configuration_saved ascii_only (lit "index.csv") [Zebra; apple] ∅
           example_run_Ok).
Defined.

(** ** Case in the key *)

Lemma casefold_ascii (U : UnicodeData) (s : str) :
  Forall (λ c, (c < 128)%N) s → casefold U s = ascii_lower <$> s.
Proof.
  induction 1 as [|c s Hc _ IH]; [done|].
  unfold casefold in *. change (mbind ?f (c :: s)) with (f c ++ mbind f s).
  rewrite casefold_char_ascii by done. cbn [app fmap list_fmap]. f_equal. exact IH.
Qed.

(** X10. Case is ignored in topic and comment: two rows of ASCII text with
    the same book and page number, whose topics and whose comments differ
    at most in the case of letters, have the same sort key, so that the
    sort leaves them in the order of the input. *)
Theorem key_ignores_case (U : UnicodeData)
    (topic topic' book page comment comment' : str) (rest rest' : Row) :
  Forall (λ c, (c < 128)%N) (topic ++ topic' ++ comment ++ comment') →
  ascii_lower <$> topic = ascii_lower <$> topic' →
  ascii_lower <$> comment = ascii_lower <$> comment' →
  sort_key U (topic :: book :: page :: comment :: rest)
  = sort_key U (topic' :: book :: page :: comment' :: rest') ∧
  tuple_lt (casefold U topic, book, page, casefold U comment)
    (casefold U topic', book, page, casefold U comment') = false.
Proof.
  intros H Et Ec. rewrite !Forall_app in H. destruct H as (Ht & Ht' & Hc & Hc').
  assert (casefold U topic = casefold U topic') as E1.
  { by rewrite !casefold_ascii, Et. }
  assert (casefold U comment = casefold U comment') as E2.
  { by rewrite !casefold_ascii, Ec. }
  split.
  - change (Ok (casefold U topic, book, page, casefold U comment)
            = Ok (casefold U topic', book, page, casefold U comment')).
    by rewrite E1, E2.
  - rewrite E1, E2. apply key_le_tuple_lt. reflexivity.
Qed.

Lemma key_ignores_case_witness :
  Forall (λ c, (c < 128)%N) (lit "Apple" ++ lit "aPPLE" ++ lit "Desc" ++ lit "desc") ∧
  sort_key ascii_only [lit "Apple"; lit "3"; lit "2"; lit "Desc"]
  = sort_key ascii_only [lit "aPPLE"; lit "3"; lit "2"; lit "desc"; lit "more"].
Proof.
  assert (Forall (λ c, (c < 128)%N)
            (lit "Apple" ++ lit "aPPLE" ++ lit "Desc" ++ lit "desc")) as H.
  { by apply Forall_forall; intros c Hc; vm_compute in Hc;
      repeat (apply elem_of_cons in Hc as [->|Hc]; [done|]);
      apply elem_of_nil in Hc. }
  split; [exact H|].
  exact (proj1 (key_ignores_case ascii_only (lit "Apple") (lit "aPPLE") (lit "3")
                  (lit "2") (lit "Desc") (lit "desc") [] [lit "more"] H
                  eq_refl eq_refl)).
Defined.

(** ** The name of the document *)

Lemma rfind_from_app (i : Z) (c : N) (p q : str) (found : Z) :
  rfind_from i c (p ++ q) found
  = rfind_from (i + Z.of_nat (length p)) c q (rfind_from i c p found).
Proof.
  revert i found. induction p as [|x p IH]; intros i found; simpl.
  { by rewrite Z.add_0_r. }
  rewrite IH. f_equal. lia.
Qed.

Lemma rfind_from_absent (i : Z) (c : N) (q : str) (found : Z) :
  c ∉ q → rfind_from i c q found = found.
Proof.
  revert i found. induction q as [|x q IH]; intros i found Hc; [done|].
  apply not_elem_of_cons in Hc as [Hx Hq]. simpl.
  rewrite IH by done. apply N.eqb_neq in Hx. rewrite N.eqb_sym in Hx.
  by rewrite Hx.
Qed.

Lemma rfind_from_bound (i : Z) (c : N) (p : str) (found : Z) :
  (found < i)%Z → (found ≤ rfind_from i c p found < i + Z.of_nat (length p))%Z.
Proof.
  revert i found. induction p as [|x p IH]; intros i found Hf; simpl; [lia|].
  destruct (x =? c)%N.
  - specialize (IH (i + 1)%Z i). lia.
  - specialize (IH (i + 1)%Z found). lia.
Qed.

(** X11. The document takes the place of the CSV file: for a file name
    that ends in a dot and an extension, where the extension holds neither
    dot nor slash and the name in front of the dot, after its last slash,
    is not made of dots alone, the target is that name in front of the dot,
    directory and all, followed by ".docx". *)
Theorem docfile_replaces_extension (pre post extension : str) (x : N) :
  x ≠ 46%N → x ≠ 47%N → 47%N ∉ post →
  46%N ∉ extension → 47%N ∉ extension →
  splitext (pre ++ x :: post ++ 46%N :: extension)
  = (pre ++ x :: post, 46%N :: extension) ∧
  docfile_of (pre ++ x :: post ++ 46%N :: extension)
  = pre ++ x :: post ++ lit ".docx".
Proof.
  intros Hx46 Hx47 Hpost Hdot Hsep.
  set (stem := pre ++ x :: post).
  set (p := pre ++ x :: post ++ 46%N :: extension).
  assert (p = stem ++ 46%N :: extension) as Hp.
  { unfold p, stem. by rewrite <- app_assoc. }
  assert (rfind p 46 = Z.of_nat (length stem)) as Hdot_i.
  { unfold rfind. rewrite Hp.
    change (stem ++ 46%N :: extension) with (stem ++ [46%N] ++ extension).
    rewrite app_assoc, rfind_from_app, rfind_from_absent by done.
    rewrite rfind_from_app. simpl. lia. }
  assert (-1 ≤ rfind p 47 < Z.of_nat (length pre))%Z as Hsep_i.
  { unfold rfind, p. rewrite rfind_from_app, rfind_from_absent.
    - pose proof (rfind_from_bound 0 47 pre (-1)). lia.
    - rewrite not_elem_of_cons, not_elem_of_app, not_elem_of_cons. done. }
  assert (splitext p = (stem, 46%N :: extension)) as Hsplit.
  { unfold splitext. rewrite Hdot_i.
    assert (length stem = length pre + S (length post)) as Hlen.
    { unfold stem. by rewrite length_app. }
    assert ((rfind p 47 <? Z.of_nat (length stem))%Z = true) as ->
      by (apply Z.ltb_lt; lia).
    assert (existsb (λ c : N, negb (c =? 46)%N)
              (take (Z.to_nat (Z.of_nat (length stem) - (rfind p 47 + 1)))
                 (drop (Z.to_nat (rfind p 47 + 1)) p)) = true) as ->.
    { apply existsb_exists. exists x. split.
      - apply list_elem_of_In, list_elem_of_lookup.
        exists (length pre - Z.to_nat (rfind p 47 + 1)).
        rewrite lookup_take_lt by lia. rewrite lookup_drop.
        replace (Z.to_nat (rfind p 47 + 1)
                 + (length pre - Z.to_nat (rfind p 47 + 1))) with (length pre)
          by lia.
        unfold p. by rewrite list_lookup_middle.
      - apply negb_true_iff, N.eqb_neq. done. }
    simpl. rewrite Nat2Z.id, Hp.
    by rewrite take_app_length, drop_app_length. }
  split; [exact Hsplit|].
  unfold docfile_of. fold p. rewrite Hsplit. unfold stem. simpl.
  by rewrite <- app_assoc.
Qed.

Lemma docfile_replaces_extension_witness :
  (105%N ≠ 46%N) ∧ (105%N ≠ 47%N) ∧ (47%N ∉ lit "ndex") ∧
  (46%N ∉ lit "csv") ∧ (47%N ∉ lit "csv") ∧
  docfile_of (lit "sec401/index.csv") = lit "sec401/index.docx".
Proof.
  assert (47%N ∉ lit "ndex") as H1.
  { intros H. vm_compute in H.
    repeat (apply elem_of_cons in H as [H|H]; [done|]). by apply elem_of_nil in H. }
  assert (46%N ∉ lit "csv") as H2.
  { intros H. vm_compute in H.
    repeat (apply elem_of_cons in H as [H|H]; [done|]). by apply elem_of_nil in H. }
  assert (47%N ∉ lit "csv") as H3.
  { intros H. vm_compute in H.
    repeat (apply elem_of_cons in H as [H|H]; [done|]). by apply elem_of_nil in H. }
  assert (105%N ≠ 46%N) as H4 by done.
  assert (105%N ≠ 47%N) as H5 by done.
  split; [exact H4|]. split; [exact H5|]. split; [exact H1|].
  split; [exact H2|]. split; [exact H3|].
  exact (proj2 (docfile_replaces_extension (lit "sec401/") (lit "ndex") (lit "csv")
                  105 H4 H5 H1 H2 H3)).
Defined.
